(** * csv-sales-api: column resolution, streaming aggregation, result writer

    A shallow embedding of [internal/services/csv_service.go], of
    [internal/services/file_service.go] (the result writer, the names of the
    stored files, validation and the download location) and of the decisions
    of [UploadCSV] in [internal/handlers/upload_handler.go], together with
    the parts of the Go standard library these functions call
    ([strconv.Atoi], [strings.Contains], the [encoding/csv] reader as
    [csv.NewReader] configures it, [fmt.Sprintf] with the verbs [%s] and [%d],
    [filepath.Ext] and [filepath.Base]).

    Go strings are byte sequences: they are modelled as [string], one [ascii]
    per byte.  Go's [int] is taken at its 64-bit size; it is modelled as [Z]
    with the wrap-around written out. *)

From Stdlib Require Import ZArith Lia Ascii String List.
From stdpp Require Import base strings list gmap.

Open Scope Z_scope.

(** ** Machine integers *)

Module GoInt.

Definition intSize : Z := 64.
Definition minInt : Z := - 2 ^ 63.
Definition maxInt : Z := 2 ^ 63 - 1.
Definition maxUint64 : Z := 2 ^ 64 - 1.

(** Conversion of a mathematical integer to [uint64] and to [int]. *)
Definition toUint64 (z : Z) : Z := z mod 2 ^ 64.
Definition wrap (z : Z) : Z := (z + 2 ^ 63) mod 2 ^ 64 - 2 ^ 63.

(** [x + y] on [int]. *)
Definition add (x y : Z) : Z := wrap (x + y).

Definition inRange (z : Z) : Prop := minInt <= z <= maxInt.

End GoInt.

(** ** Bytes and strings *)

Definition byte (c : ascii) : Z := Z.of_N (N_of_ascii c).

Definition isDigit (c : ascii) : bool := (48 <=? byte c) && (byte c <=? 57).

(** [strings.HasPrefix] and [strings.Contains] (the latter is
    [Index(s, substr) >= 0]: some suffix of [s] starts with [substr]). *)
Fixpoint HasPrefix (s prefix : string) : bool :=
  match prefix, s with
  | EmptyString, _ => true
  | String _ _, EmptyString => false
  | String p prefix', String c s' => Ascii.eqb c p && HasPrefix s' prefix'
  end.

Fixpoint Contains (s substr : string) : bool :=
  HasPrefix s substr ||
  match s with
  | EmptyString => false
  | String _ s' => Contains s' substr
  end.

(** [strings.TrimSpace] and [strings.ToLower] work on Unicode code points
    with the tables of package [unicode].  The program only composes them, so
    they are an interface here, and every theorem below holds for any
    implementation of it. *)
Class GoStrings := {
  TrimSpace : string -> string;
  ToLower : string -> string
}.

(** The two functions on ASCII text, where they are decided by the byte:
    white space is tab, line feed, vertical tab, form feed, carriage return
    and space; only [A]..[Z] change under lower-casing. *)
Module AsciiText.

Definition isSpace (c : ascii) : bool :=
  ((9 <=? byte c) && (byte c <=? 13)) || (byte c =? 32).

Fixpoint trimLeft (s : string) : string :=
  match s with
  | String c s' => if isSpace c then trimLeft s' else s
  | EmptyString => EmptyString
  end.

Fixpoint trimRight (s : string) : string :=
  match s with
  | EmptyString => EmptyString
  | String c s' =>
      match trimRight s' with
      | EmptyString => if isSpace c then EmptyString else String c EmptyString
      | t => String c t
      end
  end.

Definition toLowerByte (c : ascii) : ascii :=
  if (65 <=? byte c) && (byte c <=? 90)
  then ascii_of_N (Z.to_N (byte c + 32)) else c.

Fixpoint toLower (s : string) : string :=
  match s with
  | EmptyString => EmptyString
  | String c s' => String (toLowerByte c) (toLower s')
  end.

Definition strings : GoStrings :=
  {| TrimSpace := fun s => trimRight (trimLeft s); ToLower := toLower |}.

End AsciiText.

(** ** strconv *)

Module Strconv.

Inductive NumError := ErrSyntax | ErrRange.

(** [ParseUint(s, 10, 64)].  In base 10 an underscore and a letter are both
    syntax errors, so the byte switch has two outcomes.  The result is Go's
    pair of a value and an error ([None] is [nil]). *)
Definition cutoff : Z := GoInt.maxUint64 / 10 + 1.
Definition maxVal : Z := 2 ^ 64 - 1.

Fixpoint parseUintLoop (s : string) (n : Z) : Z * option NumError :=
  match s with
  | EmptyString => (n, None)
  | String c s' =>
      if isDigit c then
        let d := byte c - 48 in
        if n >=? cutoff then (maxVal, Some ErrRange)
        else
          let n := n * 10 in
          let n1 := GoInt.toUint64 (n + d) in
          if (n1 <? n) || (n1 >? maxVal) then (maxVal, Some ErrRange)
          else parseUintLoop s' n1
      else (0, Some ErrSyntax)
  end.

Definition ParseUint (s : string) : Z * option NumError :=
  match s with
  | EmptyString => (0, Some ErrSyntax)
  | _ => parseUintLoop s 0
  end.

(** [ParseInt(s, 10, 0)]: the sign is picked off, the rest goes through
    [ParseUint], then the range of [int] is checked. *)
Definition ParseInt (s : string) : Z * option NumError :=
  match s with
  | EmptyString => (0, Some ErrSyntax)
  | String c s' =>
      let '(neg, digits) :=
        if Ascii.eqb c "+" then (false, s')
        else if Ascii.eqb c "-" then (true, s')
        else (false, s) in
      match ParseUint digits with
      | (_, Some ErrSyntax) => (0, Some ErrSyntax)
      | (un, _) =>
          let cutoff := 2 ^ (GoInt.intSize - 1) in
          if negb neg && (un >=? cutoff) then (cutoff - 1, Some ErrRange)
          else if neg && (un >? cutoff) then (- cutoff, Some ErrRange)
          else
            let n := GoInt.wrap un in
            (if neg then GoInt.wrap (- n) else n, None)
      end
  end.

(** [Atoi(s)] is [ParseInt(s, 10, 0)] converted to [int] (its fast path for
    short inputs computes the same result). *)
Definition Atoi (s : string) : Z * option NumError := ParseInt s.

(** The value a decimal literal denotes: an optional sign, then one or more
    digits and nothing else. *)
Fixpoint digitsValue (s : string) (acc : Z) : option Z :=
  match s with
  | EmptyString => Some acc
  | String c s' =>
      if isDigit c then digitsValue s' (acc * 10 + (byte c - 48)) else None
  end.

Definition unsignedValue (s : string) : option Z :=
  match s with
  | EmptyString => None
  | _ => digitsValue s 0
  end.

Definition decimalValue (s : string) : option Z :=
  match s with
  | EmptyString => None
  | String c s' =>
      if Ascii.eqb c "+" then unsignedValue s'
      else if Ascii.eqb c "-" then Z.opp <$> unsignedValue s'
      else unsignedValue s
  end.

End Strconv.

(** ** encoding/csv *)

Module Csv.

(** The failures of [Reader.Read]: the end of the input ([io.EOF]), a record
    the tokenizer rejects, or a record with the wrong number of fields. *)
Inductive ParseError := ErrBareQuote | ErrQuote | ErrInput.
Inductive Error := EOF | ErrParse (e : ParseError) | ErrFieldCount.

(** The file as the tokenizer sees it, record by record (empty lines are
    not records): the fields of a well-formed record, or a malformed one. *)
Inductive RawRecord :=
| Fields (dst : list string)
| Malformed (e : ParseError).

Definition File := list RawRecord.

Record Reader := {
  FieldsPerRecord : Z;
  pending : File
}.

(** [csv.NewReader] leaves [FieldsPerRecord] at 0. *)
Definition NewReader (file : File) : Reader :=
  {| FieldsPerRecord := 0; pending := file |}.

(** The end of [readRecord]: "Check or update the expected fields per
    record".  The package documents the field: a positive [FieldsPerRecord]
    is required of every record; at 0, [Read] sets it to the number of fields
    of the first record, so that later records must have the same field
    count; a negative one means no check.  A record of the wrong length is
    returned together with [ErrFieldCount]. *)
Definition checkFields (fieldsPerRecord : Z) (raw : RawRecord)
  : (list string * option Error) * Z :=
  match raw with
  | Malformed e => (([], Some (ErrParse e)), fieldsPerRecord)
  | Fields dst =>
      if fieldsPerRecord >? 0 then
        if negb (Z.of_nat (length dst) =? fieldsPerRecord)
        then ((dst, Some ErrFieldCount), fieldsPerRecord)
        else ((dst, None), fieldsPerRecord)
      else if fieldsPerRecord =? 0 then ((dst, None), Z.of_nat (length dst))
      else ((dst, None), fieldsPerRecord)
  end.

(** [Reader.Read]: Go's pair of a record and an error, and the reader
    after the call. *)
Definition Read (r : Reader) : (list string * option Error) * Reader :=
  match pending r with
  | [] => (([], Some EOF), r)
  | raw :: rest =>
      let '(res, n) := checkFields (FieldsPerRecord r) raw in
      (res, {| FieldsPerRecord := n; pending := rest |})
  end.

End Csv.

(** ** package services *)

Record DepartmentSummary := {
  Department : string;
  TotalSales : Z
}.

Inductive ColumnError :=
| DepartmentColumnNotFound   (* "department column not found in CSV header" *)
| SalesColumnNotFound.       (* "sales column not found in CSV header" *)

Inductive Error :=
| FailedToReadHeader (e : Csv.Error)
| FailedToFindColumns (e : ColumnError)
| FailedToReadRecord (row : Z) (e : Csv.Error)
| NoValidDataRows            (* "no valid data rows found in CSV file" *)
| IndexOutOfRange.           (* run-time panic of a slice index *)

Inductive SkipReason :=
| InsufficientColumns
| EmptyDepartment
| InvalidSales (salesStr : string) (e : Strconv.NumError).

Inductive RowOutcome :=
| Skip (why : SkipReason)
| Add (department : string) (sales : Z)
| Panic.

Definition len {A} (l : list A) : Z := Z.of_nat (length l).

(** [record[i]] on a slice: a run-time panic outside [0 <= i < len]. *)
Definition index {A} (l : list A) (i : Z) : option A :=
  if i <? 0 then None else l !! Z.to_nat i.

Definition nl : string := String (ascii_of_nat 10) EmptyString.

Section Services.

Context {strings : GoStrings}.

(** The two conditions of the header scan, on the normalized cell. *)
Definition isDepartmentColumn (colLower : string) : bool :=
  String.eqb colLower "department" ||
  String.eqb colLower "department name" ||
  Contains colLower "department" ||
  String.eqb colLower "dept".

Definition isSalesColumn (colLower : string) : bool :=
  String.eqb colLower "sales" ||
  String.eqb colLower "total_sales" ||
  String.eqb colLower "total sales" ||
  String.eqb colLower "number of sales" ||
  String.eqb colLower "amount" ||
  String.eqb colLower "revenue".

(** The [for i, col := range header] loop of [findColumnIndices], from index
    [i] on. *)
Fixpoint scanHeader (header : list string) (i departmentIndex salesIndex : Z)
  : Z * Z :=
  match header with
  | [] => (departmentIndex, salesIndex)
  | col :: header' =>
      let colLower := ToLower (TrimSpace col) in
      let departmentIndex :=
        if (departmentIndex =? -1) && isDepartmentColumn colLower
        then i else departmentIndex in
      let salesIndex :=
        if (salesIndex =? -1) && isSalesColumn colLower
        then i else salesIndex in
      scanHeader header' (i + 1) departmentIndex salesIndex
  end.

Definition findColumnIndices (header : list string)
  : Z * Z * option ColumnError :=
  let '(departmentIndex, salesIndex) := scanHeader header 0 (-1) (-1) in
  if departmentIndex =? -1 then (-1, -1, Some DepartmentColumnNotFound)
  else if salesIndex =? -1 then (-1, -1, Some SalesColumnNotFound)
  else (departmentIndex, salesIndex, None).

(** The body of the row loop of [ProcessSalesCSV] after a successful read:
    the three guards, each ending in [continue], and what is added. *)
Definition processRecord (departmentIndex salesIndex : Z)
    (record : list string) : RowOutcome :=
  if (len record <=? departmentIndex) || (len record <=? salesIndex)
  then Skip InsufficientColumns
  else
    match index record departmentIndex, index record salesIndex with
    | Some cell, Some cell' =>
        let department := TrimSpace cell in
        let salesStr := TrimSpace cell' in
        if String.eqb department "" then Skip EmptyDepartment
        else
          match Strconv.Atoi salesStr with
          | (_, Some e) => Skip (InvalidSales salesStr e)
          | (sales, None) => Add department sales
          end
    | _, _ => Panic
    end.

(** [departmentSales[department] += sales]: a missing key reads as 0. *)
Definition addSales (departmentSales : gmap string Z)
    (department : string) (sales : Z) : gmap string Z :=
  <[department := GoInt.add (default 0 (departmentSales !! department)) sales]>
    departmentSales.

(** The [for { record, err := reader.Read() ... }] loop, by recursion on the
    records the reader still holds; [readRows_Read] below states it through
    [Csv.Read].  The result is the accumulator at [io.EOF] or the error the
    loop returns with, and the reader as the loop leaves it. *)
Fixpoint readRows (pending : Csv.File) (fieldsPerRecord : Z)
    (departmentIndex salesIndex : Z)
    (departmentSales : gmap string Z) (rowNumber : Z)
  : (Error + gmap string Z) * Csv.Reader :=
  match pending with
  | [] =>
      (inr departmentSales,
       {| Csv.FieldsPerRecord := fieldsPerRecord; Csv.pending := [] |})
  | raw :: rest =>
      match Csv.checkFields fieldsPerRecord raw with
      | ((_, Some e), n) =>
          (inl (FailedToReadRecord (rowNumber + 1) e),
           {| Csv.FieldsPerRecord := n; Csv.pending := rest |})
      | ((record, None), n) =>
          let rowNumber := rowNumber + 1 in
          match processRecord departmentIndex salesIndex record with
          | Skip _ =>
              readRows rest n departmentIndex salesIndex departmentSales rowNumber
          | Add department sales =>
              readRows rest n departmentIndex salesIndex
                (addSales departmentSales department sales) rowNumber
          | Panic =>
              (inl IndexOutOfRange,
               {| Csv.FieldsPerRecord := n; Csv.pending := rest |})
          end
      end
  end.

(** "Convert map to slice".  The order of [range] over a map is not
    specified; [map_to_list] is one order, and [Returns] below allows every
    one. *)
Definition summariesOf (departmentSales : gmap string Z)
  : list DepartmentSummary :=
  (fun kv => {| Department := kv.1; TotalSales := kv.2 |})
    <$> map_to_list departmentSales.

(** [ProcessSalesCSV], from the opened file on: [file] is what [openFile]
    returned.  The second component is the reader when the call returns. *)
Definition ProcessSalesCSV (file : Csv.File)
  : (Error + list DepartmentSummary) * Csv.Reader :=
  let reader := Csv.NewReader file in
  match Csv.Read reader with
  | ((_, Some e), reader) => (inl (FailedToReadHeader e), reader)
  | ((header, None), reader) =>
      match findColumnIndices header with
      | (_, _, Some e) => (inl (FailedToFindColumns e), reader)
      | (departmentIndex, salesIndex, None) =>
          let departmentSales : gmap string Z := ∅ in
          let rowNumber := 1 in
          match readRows (Csv.pending reader) (Csv.FieldsPerRecord reader)
                  departmentIndex salesIndex departmentSales rowNumber with
          | (inl e, reader) => (inl e, reader)
          | (inr departmentSales, reader) =>
              if Z.of_nat (size departmentSales) =? 0
              then (inl NoValidDataRows, reader)
              else (inr (summariesOf departmentSales), reader)
          end
      end
  end.

(** A call returns [summaries] when they are the converted map in some
    iteration order. *)
Definition Returns (file : Csv.File) (summaries : list DepartmentSummary)
  : Prop :=
  exists l, (ProcessSalesCSV file).1 = inr l /\ summaries ≡ₚ l.

End Services.

(** ** The result writer *)

(** [fmt]'s rendering of an [int] under [%d]: the magnitude as [uint64],
    digits produced from the least significant one into the buffer, then the
    sign.  Twenty digits hold every [uint64]. *)
Definition digitChar (d : Z) : ascii := ascii_of_N (Z.to_N (48 + d)).

Fixpoint fmtDigits (room : nat) (u : Z) (buf : string) : string :=
  match room with
  | O => buf
  | S room' =>
      if u >=? 10 then
        let next := u / 10 in
        fmtDigits room' next (String (digitChar (u - next * 10)) buf)
      else String (digitChar u) buf
  end.

Definition fmtInteger (n : Z) : string :=
  let negative := n <? 0 in
  let u := if negative then GoInt.toUint64 (- n) else n in
  let digits := fmtDigits 20 u EmptyString in
  if negative then String "-" digits else digits.

(** [fmt.Sprintf("%s,%d\n", summary.Department, summary.TotalSales)]. *)
Definition formatLine (summary : DepartmentSummary) : string :=
  Department summary +:+ "," +:+ fmtInteger (TotalSales summary) +:+ nl.

Definition resultHeader : string :=
  "Department Name,Total Number of Sales" +:+ nl.

(** The result file is its contents; [os.Create] gives the empty file and
    [WriteString] appends.  Failures of the operating system are outside the
    model. *)
Definition WriteString (file s : string) : string := file +:+ s.

Definition SaveResultFile (departmentSummaries : list DepartmentSummary)
  : string :=
  let file := EmptyString in
  let file := WriteString file resultHeader in
  fold_left (fun file summary => WriteString file (formatLine summary))
    departmentSummaries file.

(** ** The inputs of the tests *)

(** A well-formed record of a file. *)
Definition row (cells : list string) : Csv.RawRecord := Csv.Fields cells.

Definition summary (department : string) (totalSales : Z) : DepartmentSummary :=
  {| Department := department; TotalSales := totalSales |}.

Module Scenarios.

Definition standard : Csv.File :=
  [row ["department"; "sales"];
   row ["Electronics"; "1000"]; row ["Clothing"; "500"];
   row ["Electronics"; "1500"]; row ["Books"; "300"]; row ["Clothing"; "200"]].

Definition synonyms : Csv.File :=
  [row ["dept"; "amount"]; row ["Electronics"; "1000"]; row ["Clothing"; "500"]].

Definition emptyDepartment : Csv.File :=
  [row ["department"; "sales"];
   row ["Electronics"; "1000"]; row [""; "500"]; row ["Books"; "300"]].

Definition invalidSales : Csv.File :=
  [row ["department"; "sales"];
   row ["Electronics"; "1000"]; row ["Clothing"; "invalid"]; row ["Books"; "300"]].

Definition noColumns : Csv.File :=
  [row ["name"; "age"]; row ["John"; "25"]; row ["Jane"; "30"]].

Definition headerOnly : Csv.File := [row ["department"; "sales"]].

Definition allInvalid : Csv.File :=
  [row ["department"; "sales"]; row ["Electronics"; "n/a"]; row ["Books"; "1.5"]].

(** A short row between two full ones. *)
Definition shortRow : Csv.File :=
  [row ["department"; "sales"];
   row ["Electronics"; "1000"]; row ["Clothing"]; row ["Books"; "300"]].

(** A row with a quote the tokenizer rejects. *)
Definition bareQuote : Csv.File :=
  [row ["department"; "sales"];
   row ["Electronics"; "1000"]; Csv.Malformed Csv.ErrBareQuote; row ["Books"; "300"]].

(** Two values whose sum is the first integer above the range of [int]. *)
Definition overflow : Csv.File :=
  [row ["department"; "sales"];
   row ["Electronics"; "9223372036854775807"]; row ["Electronics"; "1"]].


Definition atEnd : Csv.Reader :=
  {| Csv.FieldsPerRecord := 2; Csv.pending := [] |}.

(** Accumulators part of the way through a pass. *)
Definition someBooks : gmap string Z := {["books" := 7]}.


End Scenarios.

(** ** path/filepath, where the separator is the slash *)

Module Filepath.

Definition isPathSeparator (c : ascii) : bool := Ascii.eqb c "/".

(** The loop of [Ext] goes down from the last byte of the path: [r] holds
    the bytes still to visit, the last one first, and [suffix] the bytes
    visited.  It stops at a separator with no extension, and at a dot with
    the path from that dot on. *)
Fixpoint extLoop (r suffix : list ascii) : list ascii :=
  match r with
  | [] => []
  | c :: r' =>
      if isPathSeparator c then []
      else if Ascii.eqb c "." then c :: suffix
      else extLoop r' (c :: suffix)
  end.

Definition Ext (path : string) : string :=
  string_of_list_ascii (extLoop (rev (list_ascii_of_string path)) []).

(** The two loops of [Base], both from the last byte down: "Strip trailing
    slashes", then "Find the last element". *)
Fixpoint stripSeparators (r : list ascii) : list ascii :=
  match r with
  | [] => []
  | c :: r' => if isPathSeparator c then stripSeparators r' else r
  end.

Fixpoint lastElement (r suffix : list ascii) : list ascii :=
  match r with
  | [] => suffix
  | c :: r' => if isPathSeparator c then suffix else lastElement r' (c :: suffix)
  end.

Definition Base (path : string) : string :=
  match path with
  | EmptyString => "."
  | _ =>
      let r := stripSeparators (rev (list_ascii_of_string path)) in
      match lastElement r [] with
      | [] => "/"
      | element => string_of_list_ascii element
      end
  end.

End Filepath.

(** ** FileService: names, validation, download location *)

(** What the service reads of a [multipart.FileHeader]: the file name, the
    size, and [Header.Get("Content-Type")]. *)
Record FileHeader := {
  Filename : string;
  Size : Z;
  ContentType : string
}.

(** "only CSV files are allowed, got: %s" *)
Inductive ValidationError := OnlyCSVAllowed (ext : string).

(** [fmt.Sprintf("upload_%s%s", uniqueID, fileExt)] of [SaveUploadedFile] and
    [fmt.Sprintf("result_%s.csv", uniqueID)] of [SaveResultFile], for the
    identifier [uuid.New().String()] gave. *)
Definition uploadFilename (uniqueID filename : string) : string :=
  "upload_" +:+ uniqueID +:+ Filepath.Ext filename.

Definition resultFilename (uniqueID : string) : string :=
  "result_" +:+ uniqueID +:+ ".csv".

Definition GetDownloadURL (filePath : string) : string :=
  let filename := Filepath.Base filePath in
  "/public/uploads/" +:+ filename.

Section Validation.

Context {strings : GoStrings}.

(** [ValidateFile]: the error it returns, and whether it logged the warning
    about the MIME type. *)
Definition ValidateFile (file : FileHeader) : option ValidationError * bool :=
  let ext := ToLower (Filepath.Ext (Filename file)) in
  if negb (String.eqb ext ".csv") then (Some (OnlyCSVAllowed ext), false)
  else
    let unexpected :=
      negb (Contains (ContentType file) "text/csv") &&
      negb (Contains (ContentType file) "application/csv") &&
      negb (Contains (ContentType file) "text/plain") in
    (None, unexpected).

End Validation.

(** ** package models and the upload handler *)

Module Models.

Record UploadResponse := {
  Success : bool;
  Message : string;
  DownloadURL : string;
  TotalDepartments : Z;
  TotalSales : Z;
  ProcessedAt : string
}.

End Models.

(** Why a request is answered with an error: the cases of [UploadCSV] in
    order, with the status each one sends. *)
Inductive UploadFailure :=
| NoFileUploaded
| ValidationFailed (e : ValidationError)
| SaveUploadFailed
| ProcessFailed (e : option Error)      (* [None]: the file could not be opened *)
| SaveResultFailed.

Definition statusOf (failure : UploadFailure) : Z :=
  match failure with
  | NoFileUploaded | ValidationFailed _ => 400
  | SaveUploadFailed | ProcessFailed _ | SaveResultFailed => 500
  end.

(** What the handler gets from outside the two services' logic: the form
    file, the path [SaveUploadedFile] stored it under, the records of the file
    at a path when [openFile] succeeds, the path [SaveResultFile] wrote to, and
    the time. *)
Record Request := {
  formFile : option FileHeader;
  uploadedPath : option string;
  openFile : string -> option Csv.File;
  resultPath : option string;
  now : string
}.

Section Handler.

Context {strings : GoStrings}.

(** [ProcessSalesCSV] from the path on. *)
Definition ProcessSalesCSVAt (request : Request) (filePath : string)
  : option Error + list DepartmentSummary :=
  match openFile request filePath with
  | None => inl None
  | Some file =>
      match (ProcessSalesCSV file).1 with
      | inl e => inl (Some e)
      | inr departmentSummaries => inr departmentSummaries
      end
  end.

(** [UploadCSV]: the failure answered with its status, or the response sent
    with status 200. *)
Definition UploadCSV (request : Request) : UploadFailure + Models.UploadResponse :=
  match formFile request with
  | None => inl NoFileUploaded
  | Some file =>
      match ValidateFile file with
      | (Some e, _) => inl (ValidationFailed e)
      | (None, _) =>
          match uploadedPath request with
          | None => inl SaveUploadFailed
          | Some filePath =>
              match ProcessSalesCSVAt request filePath with
              | inl e => inl (ProcessFailed e)
              | inr departmentSummaries =>
                  match resultPath request with
                  | None => inl SaveResultFailed
                  | Some resultFilePath =>
                      let downloadURL := GetDownloadURL resultFilePath in
                      let totalSales :=
                        fold_left
                          (fun totalSales summary =>
                             GoInt.add totalSales (TotalSales summary))
                          departmentSummaries 0 in
                      inr {| Models.Success := true;
                             Models.Message := "CSV file processed successfully";
                             Models.DownloadURL := downloadURL;
                             Models.TotalDepartments := len departmentSummaries;
                             Models.TotalSales := totalSales;
                             Models.ProcessedAt := now request |}
                  end
              end
          end
      end
  end.

End Handler.

(** ** Requests for the examples *)

Module Requests.

Definition upload : FileHeader :=
  {| Filename := "Sales.Report.CSV"; Size := 1000;
     ContentType := "application/octet-stream" |}.

Definition storedAt : string := "public/uploads/upload_1234.CSV".

Definition accepted : Request :=
  {| formFile := Some upload;
     uploadedPath := Some storedAt;
     openFile := fun path =>
       if String.eqb path storedAt then Some Scenarios.standard else None;
     resultPath := Some "public/uploads/result_5678.csv";
     now := "2024-01-15T10:30:00Z" |}.

Definition acceptedResponse : Models.UploadResponse :=
  {| Models.Success := true;
     Models.Message := "CSV file processed successfully";
     Models.DownloadURL := "/public/uploads/result_5678.csv";
     Models.TotalDepartments := 3;
     Models.TotalSales := 3500;
     Models.ProcessedAt := "2024-01-15T10:30:00Z" |}.

Definition textFile : Request :=
  {| formFile := Some {| Filename := "test.txt"; Size := 1000;
                         ContentType := "text/plain" |};
     uploadedPath := Some storedAt;
     openFile := fun _ => Some Scenarios.standard;
     resultPath := Some "public/uploads/result_5678.csv";
     now := "2024-01-15T10:30:00Z" |}.

End Requests.

(** ** Further notions used in the statements *)

(** The sum of the values added under one department. *)
Fixpoint groupSum (department : string) (adds : list (string * Z)) : Z :=
  match adds with
  | [] => 0
  | (k, v) :: adds' =>
      (if String.eqb k department then v else 0) + groupSum department adds'
  end.

(** Bytes other than the separator, and other than the separator and the dot. *)
Definition plainByte (c : ascii) : Prop :=
  Filepath.isPathSeparator c = false.

Definition nameByte (c : ascii) : Prop :=
  Filepath.isPathSeparator c = false /\ Ascii.eqb c "." = false.

Definition bytesOf (s : string) : list ascii := list_ascii_of_string s.

(** How often a byte occurs in a string, and the line feed. *)
Fixpoint countByte (c : ascii) (s : string) : nat :=
  match s with
  | EmptyString => O
  | String b s' => ((if Ascii.eqb b c then 1 else 0) + countByte c s')%nat
  end.

Definition lineFeed : ascii := ascii_of_nat 10.

Definition lineFeedsIn (departmentSummaries : list DepartmentSummary) : nat :=
  foldr (fun summary n => (countByte lineFeed (Department summary) + n)%nat) O
    departmentSummaries.

(** ** Notions used in the statements *)

Definition inRangeb (v : Z) : bool :=
  (GoInt.minInt <=? v) && (v <=? GoInt.maxInt).

Definition sumZ (l : list Z) : Z := foldr Z.add 0 l.

Definition sumTotals (summaries : list DepartmentSummary) : Z :=
  sumZ (TotalSales <$> summaries).

(** The sum of the running totals held in the accumulator. *)
Definition total (departmentSales : gmap string Z) : Z :=
  sumZ ((map_to_list departmentSales).*2).

(** Lines one after the other. *)
Definition concatLines (lines : list string) : string :=
  foldr String.append EmptyString lines.

(** The records of the well-formed rows. *)
Definition recordsOf (rows : Csv.File) : list (list string) :=
  omap (fun raw =>
          match raw with
          | Csv.Fields dst => Some dst
          | Csv.Malformed _ => None
          end) rows.

(** What the scan leaves in a role's variable: an index already set stays,
    otherwise the leftmost match from here on, or -1. *)
Definition locked (current : Z) (found : option nat) (i : Z) : Z :=
  if current =? -1 then
    match found with
    | Some k => i + Z.of_nat k
    | None => -1
    end
  else current.

Section Notions.

Context {strings : GoStrings}.

(** A header cell as the scan compares it. *)
Definition normalize (col : string) : string := ToLower (TrimSpace col).

(** The index of the leftmost cell whose normalized form satisfies [p]. *)
Fixpoint firstIndex (p : string -> bool) (header : list string) : option nat :=
  match header with
  | [] => None
  | col :: header' =>
      if p (normalize col) then Some O else S <$> firstIndex p header'
  end.

Definition leftmost (p : string -> bool) (header : list string) (i : nat)
  : Prop :=
  (exists col, header !! i = Some col /\ p (normalize col) = true) /\
  forall j col, (j < i)%nat -> header !! j = Some col ->
    p (normalize col) = false.

(** The rows that are not skipped, as the group key and the parsed value
    each of them adds. *)
Definition added (departmentIndex salesIndex : Z)
    (records : list (list string)) : list (string * Z) :=
  omap (fun record =>
          match processRecord departmentIndex salesIndex record with
          | Add department sales => Some (department, sales)
          | _ => None
          end) records.

(** The parsed values of the data rows of a file that are not skipped. *)
Definition parsedValues (file : Csv.File) : list Z :=
  match file with
  | Csv.Fields header :: rows =>
      match findColumnIndices header with
      | (departmentIndex, salesIndex, _) =>
          (added departmentIndex salesIndex (recordsOf rows)).*2
      end
  | _ => []
  end.

(** A row the reader delivers: the field-count check passes. *)
Definition readable (fieldsPerRecord : Z) (raw : Csv.RawRecord) : Prop :=
  (Csv.checkFields fieldsPerRecord raw).1.2 = None.

End Notions.

Section MoreNotions.

Context {strings : GoStrings}.

(** The rows of a file that are not skipped, with the header resolved as
    the file's own header says. *)
Definition addedOf (file : Csv.File) : list (string * Z) :=
  match file with
  | Csv.Fields header :: rows =>
      match findColumnIndices header with
      | (departmentIndex, salesIndex, _) =>
          added departmentIndex salesIndex (recordsOf rows)
      end
  | _ => []
  end.

(** The accumulator after the additions [adds], from the empty one. *)
Definition accumulated (adds : list (string * Z)) : gmap string Z :=
  foldl (fun m kv => addSales m kv.1 kv.2) ∅ adds.

End MoreNotions.

(** * Properties *)

(** ** The library functions at sample inputs *)

Example Atoi_1000 : Strconv.Atoi "1000" = (1000, None).
Proof. reflexivity. Qed.
Example Atoi_neg : Strconv.Atoi "-42" = (-42, None).
Proof. reflexivity. Qed.
Example Atoi_invalid : Strconv.Atoi "invalid" = (0, Some Strconv.ErrSyntax).
Proof. reflexivity. Qed.
Example Atoi_min : Strconv.Atoi "-9223372036854775808" = (-9223372036854775808, None).
Proof. reflexivity. Qed.
Example Atoi_over : Strconv.Atoi "9223372036854775808" = (9223372036854775807, Some Strconv.ErrRange).
Proof. reflexivity. Qed.
Example Atoi_huge : snd (Strconv.Atoi "99999999999999999999999") = Some Strconv.ErrRange.
Proof. reflexivity. Qed.
Example Atoi_empty : snd (Strconv.Atoi "") = Some Strconv.ErrSyntax.
Proof. reflexivity. Qed.
Example Atoi_sign_only : snd (Strconv.Atoi "+") = Some Strconv.ErrSyntax.
Proof. reflexivity. Qed.
Example Atoi_decimal_point : snd (Strconv.Atoi "1.5") = Some Strconv.ErrSyntax.
Proof. reflexivity. Qed.
Example TrimSpace_ascii : @TrimSpace AsciiText.strings "  Elec tronics	 " = "Elec tronics".
Proof. reflexivity. Qed.
Example ToLower_ascii : @ToLower AsciiText.strings "Department Name" = "department name".
Proof. reflexivity. Qed.
Example Contains_dept : Contains "the department id" "department" = true.
Proof. reflexivity. Qed.

Example fmtInteger_2500 : fmtInteger 2500 = "2500"%string.
Proof. reflexivity. Qed.
Example fmtInteger_0 : fmtInteger 0 = "0"%string.
Proof. reflexivity. Qed.
Example fmtInteger_min : fmtInteger GoInt.minInt = "-9223372036854775808"%string.
Proof. reflexivity. Qed.


(** ** Machine integers *)

Lemma wrap_inRange z : GoInt.inRange (GoInt.wrap z).
Proof.
  unfold GoInt.inRange, GoInt.wrap, GoInt.minInt, GoInt.maxInt.
  pose proof (Z.mod_pos_bound (z + 2 ^ 63) (2 ^ 64)). lia.
Qed.

Lemma wrap_id z : GoInt.inRange z -> GoInt.wrap z = z.
Proof.
  unfold GoInt.inRange, GoInt.wrap, GoInt.minInt, GoInt.maxInt. intros H.
  rewrite Z.mod_small; lia.
Qed.

Lemma wrap_add_l a b : GoInt.wrap (GoInt.wrap a + b) = GoInt.wrap (a + b).
Proof.
  unfold GoInt.wrap. f_equal.
  replace ((a + 2 ^ 63) mod 2 ^ 64 - 2 ^ 63 + b + 2 ^ 63)
    with ((a + 2 ^ 63) mod 2 ^ 64 + b) by lia.
  rewrite Zplus_mod_idemp_l. f_equal. lia.
Qed.

Lemma wrap_step a b c d :
  GoInt.wrap (a - b + GoInt.add b c + d) = GoInt.wrap (a + (c + d)).
Proof.
  unfold GoInt.add.
  replace (a - b + GoInt.wrap (b + c) + d)
    with (GoInt.wrap (b + c) + (a - b + d)) by lia.
  rewrite wrap_add_l. f_equal. lia.
Qed.


(** ** strconv.Atoi against the decimal notation *)

Lemma isDigit_bounds c : isDigit c = true -> 0 <= byte c - 48 <= 9.
Proof. unfold isDigit. intros H. apply andb_prop in H as [H1 H2]. lia. Qed.

Lemma digitsValue_ge s : forall acc v,
  0 <= acc -> Strconv.digitsValue s acc = Some v -> acc <= v.
Proof.
  induction s as [|c s IH]; simpl; intros acc v Hacc H.
  - injection H as <-. lia.
  - destruct (isDigit c) eqn:Hc; [|discriminate].
    apply isDigit_bounds in Hc. apply IH in H; lia.
Qed.

Lemma parseUintLoop_spec s : forall n,
  0 <= n <= GoInt.maxUint64 ->
  match Strconv.digitsValue s n with
  | Some v =>
      if v <=? GoInt.maxUint64 then Strconv.parseUintLoop s n = (v, None)
      else Strconv.parseUintLoop s n = (Strconv.maxVal, Some Strconv.ErrRange)
  | None =>
      Strconv.parseUintLoop s n = (0, Some Strconv.ErrSyntax) \/
      Strconv.parseUintLoop s n = (Strconv.maxVal, Some Strconv.ErrRange)
  end.
Proof.
  induction s as [|c s IH]; simpl; intros n Hn.
  - destruct (Z.leb_spec n GoInt.maxUint64); [reflexivity | lia].
  - destruct (isDigit c) eqn:Hc; [|simpl; by left].
    apply isDigit_bounds in Hc. cbv zeta.
    unfold Strconv.cutoff, Strconv.maxVal, GoInt.toUint64, GoInt.maxUint64 in *.
    change (((2 ^ 64 - 1) / 10) + 1) with 1844674407370955162.
    destruct (Z.geb_spec n 1844674407370955162) as [Hge|Hlt].
    + destruct (Strconv.digitsValue s (n * 10 + (byte c - 48))) as [v|] eqn:Hv;
        [|by right].
      apply digitsValue_ge in Hv; [|lia].
      destruct (Z.leb_spec v (2 ^ 64 - 1)); [lia | reflexivity].
    + destruct (Z_le_gt_dec (n * 10 + (byte c - 48)) (2 ^ 64 - 1)) as [Hsmall|Hbig].
      * rewrite Z.mod_small by lia.
        destruct (Z.ltb_spec (n * 10 + (byte c - 48)) (n * 10)); [lia|].
        destruct (Z.gtb_spec (n * 10 + (byte c - 48)) (2 ^ 64 - 1)); [lia|].
        simpl. apply IH. lia.
      * assert (Hmod : (n * 10 + (byte c - 48)) mod 2 ^ 64
                       = n * 10 + (byte c - 48) - 2 ^ 64).
        { symmetry. apply (Z.mod_unique _ _ 1); lia. }
        rewrite Hmod.
        destruct (Z.ltb_spec (n * 10 + (byte c - 48) - 2 ^ 64) (n * 10)); [|lia].
        simpl.
        destruct (Strconv.digitsValue s (n * 10 + (byte c - 48))) as [v|] eqn:Hv;
          [|by right].
        apply digitsValue_ge in Hv; [|lia].
        destruct (Z.leb_spec v (2 ^ 64 - 1)); [lia | reflexivity].
Qed.

Lemma unsignedValue_nonneg s v : Strconv.unsignedValue s = Some v -> 0 <= v.
Proof.
  destruct s; [discriminate|]. unfold Strconv.unsignedValue.
  intros H. apply digitsValue_ge in H; lia.
Qed.

Lemma ParseUint_spec s :
  match Strconv.unsignedValue s with
  | Some v =>
      if v <=? GoInt.maxUint64 then Strconv.ParseUint s = (v, None)
      else Strconv.ParseUint s = (Strconv.maxVal, Some Strconv.ErrRange)
  | None =>
      Strconv.ParseUint s = (0, Some Strconv.ErrSyntax) \/
      Strconv.ParseUint s = (Strconv.maxVal, Some Strconv.ErrRange)
  end.
Proof.
  destruct s as [|c s]; [by left|].
  unfold Strconv.unsignedValue, Strconv.ParseUint.
  apply parseUintLoop_spec. unfold GoInt.maxUint64. lia.
Qed.

Lemma inRangeb_spec v : inRangeb v = true <-> GoInt.inRange v.
Proof. unfold inRangeb, GoInt.inRange. rewrite andb_true_iff. lia. Qed.

(** After the sign: what [ParseInt] makes of the digits. *)
Lemma ParseInt_digits (neg : bool) (digits : string) :
  let r :=
    match Strconv.ParseUint digits with
    | (_, Some Strconv.ErrSyntax) => (0, Some Strconv.ErrSyntax)
    | (un, _) =>
        let cutoff := 2 ^ (GoInt.intSize - 1) in
        if negb neg && (un >=? cutoff) then (cutoff - 1, Some Strconv.ErrRange)
        else if neg && (un >? cutoff) then (- cutoff, Some Strconv.ErrRange)
        else
          let n := GoInt.wrap un in
          (if neg then GoInt.wrap (- n) else n, None)
    end in
  match Strconv.unsignedValue digits with
  | Some u =>
      let v := if neg then - u else u in
      if inRangeb v then r = (v, None) else r.2 = Some Strconv.ErrRange
  | None => exists e, r.2 = Some e
  end.
Proof.
  intros r. subst r.
  pose proof (ParseUint_spec digits) as H.
  change (2 ^ (GoInt.intSize - 1)) with 9223372036854775808.
  destruct (Strconv.unsignedValue digits) as [u|] eqn:Hu.
  - apply unsignedValue_nonneg in Hu. cbv zeta.
    unfold inRangeb, GoInt.minInt, GoInt.maxInt, GoInt.maxUint64, Strconv.maxVal in *.
    destruct (Z.leb_spec u (2 ^ 64 - 1)) as [Hle|Hgt]; rewrite H; clear H.
    + destruct neg; simpl negb; simpl andb.
      * destruct (Z.gtb_spec u 9223372036854775808) as [Hc|Hc].
        { destruct (Z.leb_spec (- 2 ^ 63) (- u)); [lia | reflexivity]. }
        destruct (Z.leb_spec (- 2 ^ 63) (- u)); [|lia].
        destruct (Z.leb_spec (- u) (2 ^ 63 - 1)); [|lia].
        simpl. f_equal.
        destruct (Z.eq_dec u 9223372036854775808) as [->|Hne]; [reflexivity|].
        rewrite (wrap_id u) by (unfold GoInt.inRange, GoInt.minInt, GoInt.maxInt; lia).
        apply wrap_id. unfold GoInt.inRange, GoInt.minInt, GoInt.maxInt; lia.
      * destruct (Z.geb_spec u 9223372036854775808) as [Hc|Hc].
        { destruct (Z.leb_spec (- 2 ^ 63) u); [|lia].
          destruct (Z.leb_spec u (2 ^ 63 - 1)); [lia | reflexivity]. }
        destruct (Z.leb_spec (- 2 ^ 63) u); [|lia].
        destruct (Z.leb_spec u (2 ^ 63 - 1)); [|lia].
        simpl. f_equal.
        apply wrap_id. unfold GoInt.inRange, GoInt.minInt, GoInt.maxInt; lia.
    + destruct neg; simpl negb; simpl andb.
      * change (2 ^ 64 - 1 >? 9223372036854775808) with true. cbv iota.
        destruct (Z.leb_spec (- 2 ^ 63) (- u)); [lia | reflexivity].
      * change (2 ^ 64 - 1 >=? 9223372036854775808) with true. cbv iota.
        destruct (Z.leb_spec (- 2 ^ 63) u); [|lia].
        destruct (Z.leb_spec u (2 ^ 63 - 1)); [lia | reflexivity].
  - destruct H as [H|H]; rewrite H; [by eexists|].
    unfold Strconv.maxVal.
    destruct neg; simpl negb; simpl andb.
    + change (2 ^ 64 - 1 >? 9223372036854775808) with true. by eexists.
    + change (2 ^ 64 - 1 >=? 9223372036854775808) with true. by eexists.
Qed.

(** [Atoi] succeeds exactly on the decimal literals whose value is in the
    range of [int], with that value; a literal out of range is a range
    error, anything else an error too. *)
Lemma Atoi_spec s :
  match Strconv.decimalValue s with
  | Some v =>
      if inRangeb v then Strconv.Atoi s = (v, None)
      else (Strconv.Atoi s).2 = Some Strconv.ErrRange
  | None => exists e, (Strconv.Atoi s).2 = Some e
  end.
Proof.
  unfold Strconv.Atoi, Strconv.ParseInt, Strconv.decimalValue.
  destruct s as [|c s]; [by eexists|].
  destruct (Ascii.eqb c "+") eqn:Hplus.
  { apply (ParseInt_digits false s). }
  destruct (Ascii.eqb c "-") eqn:Hminus.
  { pose proof (ParseInt_digits true s) as H. cbv zeta in H.
    destruct (Strconv.unsignedValue s); exact H. }
  apply (ParseInt_digits false (String c s)).
Qed.

Lemma Atoi_ok s v :
  Strconv.Atoi s = (v, None) <->
  Strconv.decimalValue s = Some v /\ GoInt.inRange v.
Proof.
  pose proof (Atoi_spec s) as H. rewrite <- inRangeb_spec.
  destruct (Strconv.decimalValue s) as [w|].
  - destruct (inRangeb w) eqn:Hw.
    + rewrite H. split.
      * intros [= <-]. by split.
      * intros [[= <-] _]. reflexivity.
    + split.
      * intros E. rewrite E in H. discriminate.
      * intros [[= <-] E]. congruence.
  - destruct H as [e H]. split.
    + intros E. rewrite E in H. discriminate.
    + intros [[=] _].
Qed.



(** ** The header scan *)

Section HeaderFacts.

Context {strings : GoStrings}.

Lemma firstIndex_leftmost p header : forall i,
  firstIndex p header = Some i <-> leftmost p header i.
Proof.
  induction header as [|col header IH]; intros i; simpl.
  - split; [discriminate|]. intros [(c & Hc & _) _]. discriminate.
  - destruct (p (normalize col)) eqn:Hp.
    + split.
      * intros [= <-]. split; [by exists col|]. intros j c Hj. lia.
      * intros [_ Hmin]. destruct i as [|i]; [reflexivity|].
        specialize (Hmin O col ltac:(lia) eq_refl). congruence.
    + destruct i as [|i].
      * split.
        { destruct (firstIndex p header); discriminate. }
        intros [(c & [= <-] & Hc) _]. congruence.
      * transitivity (firstIndex p header = Some i).
        { destruct (firstIndex p header) as [k|]; simpl; split;
            intros [=]; subst; reflexivity. }
        rewrite IH. unfold leftmost. split; intros [Hex Hmin].
        { split; [exact Hex|]. intros [|j] c Hj Hc.
          - injection Hc as <-. exact Hp.
          - apply (Hmin j); [lia | exact Hc]. }
        split; [exact Hex|]. intros j c Hj Hc.
        apply (Hmin (S j)); [lia | exact Hc].
Qed.

Lemma firstIndex_None p header :
  firstIndex p header = None <->
  Forall (fun col => p (normalize col) = false) header.
Proof.
  induction header as [|col header IH]; simpl.
  - split; [constructor | reflexivity].
  - destruct (p (normalize col)) eqn:Hp.
    + split; [discriminate|]. intros H. inversion H; congruence.
    + destruct (firstIndex p header) as [k|]; simpl.
      * split; [discriminate|]. intros H. apply Forall_cons in H as [_ H].
        apply IH in H. discriminate.
      * split; [|reflexivity]. intros _. constructor; [exact Hp|]. by apply IH.
Qed.

Lemma firstIndex_Some_Exists p header :
  Exists (fun col => p (normalize col) = true) header ->
  exists i, firstIndex p header = Some i.
Proof.
  intros Hex. destruct (firstIndex p header) as [i|] eqn:E; [by exists i|].
  apply firstIndex_None in E. apply Exists_exists in Hex as (col & Hin & Hcol).
  rewrite Forall_forall in E. specialize (E col Hin). congruence.
Qed.

Lemma scanHeader_spec header : forall i departmentIndex salesIndex,
  0 <= i ->
  scanHeader header i departmentIndex salesIndex =
  (locked departmentIndex (firstIndex isDepartmentColumn header) i,
   locked salesIndex (firstIndex isSalesColumn header) i).
Proof.
  induction header as [|col header IH]; intros i d s Hi; simpl.
  - unfold locked.
    destruct (Z.eqb_spec d (-1)), (Z.eqb_spec s (-1)); congruence.
  - rewrite IH by lia. fold (normalize col). unfold locked. f_equal.
    + destruct (Z.eqb_spec d (-1)) as [->|Hd]; simpl.
      * destruct (isDepartmentColumn (normalize col)); simpl.
        { destruct (Z.eqb_spec i (-1)); lia. }
        destruct (firstIndex isDepartmentColumn header); simpl; lia.
      * destruct (Z.eqb_spec d (-1)); [lia | reflexivity].
    + destruct (Z.eqb_spec s (-1)) as [->|Hs]; simpl.
      * destruct (isSalesColumn (normalize col)); simpl.
        { destruct (Z.eqb_spec i (-1)); lia. }
        destruct (firstIndex isSalesColumn header); simpl; lia.
      * destruct (Z.eqb_spec s (-1)); [lia | reflexivity].
Qed.

Lemma findColumnIndices_spec header :
  findColumnIndices header =
  match firstIndex isDepartmentColumn header, firstIndex isSalesColumn header with
  | None, _ => (-1, -1, Some DepartmentColumnNotFound)
  | Some _, None => (-1, -1, Some SalesColumnNotFound)
  | Some d, Some s => (Z.of_nat d, Z.of_nat s, None)
  end.
Proof.
  unfold findColumnIndices. rewrite scanHeader_spec by lia. unfold locked.
  change (-1 =? -1) with true. cbv iota.
  destruct (firstIndex isDepartmentColumn header) as [d|]; [|reflexivity].
  rewrite Z.add_0_l.
  destruct (Z.eqb_spec (Z.of_nat d) (-1)); [lia|].
  destruct (firstIndex isSalesColumn header) as [s|]; [|reflexivity].
  rewrite Z.add_0_l.
  destruct (Z.eqb_spec (Z.of_nat s) (-1)); [lia | reflexivity].
Qed.

Lemma leftmost_lt p header i : leftmost p header i -> (i < length header)%nat.
Proof. intros [(col & Hcol & _) _]. by apply lookup_lt_Some in Hcol. Qed.

(** A successful resolution returns the two leftmost matches, which are
    positions of the header. *)
Lemma findColumnIndices_ok header departmentIndex salesIndex :
  findColumnIndices header = (departmentIndex, salesIndex, None) ->
  exists d s,
    departmentIndex = Z.of_nat d /\ salesIndex = Z.of_nat s /\
    leftmost isDepartmentColumn header d /\ leftmost isSalesColumn header s.
Proof.
  rewrite findColumnIndices_spec.
  destruct (firstIndex isDepartmentColumn header) as [d|] eqn:Hd; [|discriminate].
  destruct (firstIndex isSalesColumn header) as [s|] eqn:Hs; [|discriminate].
  intros [= <- <-]. exists d, s.
  by rewrite <- !firstIndex_leftmost.
Qed.

Lemma findColumnIndices_bounds header departmentIndex salesIndex :
  findColumnIndices header = (departmentIndex, salesIndex, None) ->
  0 <= departmentIndex < len header /\ 0 <= salesIndex < len header.
Proof.
  intros (d & s & -> & -> & Hd%leftmost_lt & Hs%leftmost_lt)%findColumnIndices_ok.
  unfold len. lia.
Qed.

End HeaderFacts.

(** ** The reader and the row loop *)

Lemma checkFields_ok fieldsPerRecord raw record n :
  Csv.checkFields fieldsPerRecord raw = ((record, None), n) ->
  raw = Csv.Fields record.
Proof.
  destruct raw as [dst|e]; simpl; [|discriminate].
  destruct (fieldsPerRecord >? 0).
  - destruct (negb (Z.of_nat (length dst) =? fieldsPerRecord)); congruence.
  - destruct (fieldsPerRecord =? 0); congruence.
Qed.

Lemma checkFields_same fieldsPerRecord dst :
  0 < fieldsPerRecord -> len dst = fieldsPerRecord ->
  Csv.checkFields fieldsPerRecord (Csv.Fields dst) = ((dst, None), fieldsPerRecord).
Proof.
  intros Hpos Hlen. unfold len in Hlen. simpl.
  destruct (Z.gtb_spec fieldsPerRecord 0); [|lia].
  destruct (Z.eqb_spec (Z.of_nat (length dst)) fieldsPerRecord); [reflexivity | lia].
Qed.

Lemma checkFields_other fieldsPerRecord dst :
  0 < fieldsPerRecord -> len dst <> fieldsPerRecord ->
  Csv.checkFields fieldsPerRecord (Csv.Fields dst)
  = ((dst, Some Csv.ErrFieldCount), fieldsPerRecord).
Proof.
  intros Hpos Hlen. unfold len in Hlen. simpl.
  destruct (Z.gtb_spec fieldsPerRecord 0); [|lia].
  destruct (Z.eqb_spec (Z.of_nat (length dst)) fieldsPerRecord); [lia | reflexivity].
Qed.

Lemma checkFields_keeps fieldsPerRecord raw :
  0 < fieldsPerRecord -> (Csv.checkFields fieldsPerRecord raw).2 = fieldsPerRecord.
Proof.
  intros Hpos. destruct raw as [dst|e]; simpl; [|reflexivity].
  destruct (Z.gtb_spec fieldsPerRecord 0); [|lia].
  by destruct (negb (Z.of_nat (length dst) =? fieldsPerRecord)).
Qed.

(** With a positive [FieldsPerRecord] the reader delivers exactly the
    well-formed records of that many fields. *)
Lemma readable_iff `{GoStrings} fieldsPerRecord raw :
  0 < fieldsPerRecord ->
  readable fieldsPerRecord raw <->
  exists dst, raw = Csv.Fields dst /\ len dst = fieldsPerRecord.
Proof.
  intros Hpos. unfold readable. split.
  - destruct raw as [dst|e]; [|discriminate].
    destruct (Z.eq_dec (len dst) fieldsPerRecord) as [E|E].
    + intros _. by exists dst.
    + rewrite checkFields_other by done. discriminate.
  - intros (dst & -> & E). by rewrite checkFields_same.
Qed.

Lemma Read_NewReader header rows :
  Csv.Read (Csv.NewReader (Csv.Fields header :: rows))
  = ((header, None), {| Csv.FieldsPerRecord := len header; Csv.pending := rows |}).
Proof. reflexivity. Qed.

Section LoopFacts.

Context {strings : GoStrings}.

Variables departmentIndex salesIndex : Z.



Lemma readRows_readable record rest fieldsPerRecord departmentSales rowNumber :
  0 < fieldsPerRecord -> len record = fieldsPerRecord ->
  readRows (Csv.Fields record :: rest) fieldsPerRecord
    departmentIndex salesIndex departmentSales rowNumber =
  match processRecord departmentIndex salesIndex record with
  | Skip _ =>
      readRows rest fieldsPerRecord departmentIndex salesIndex
        departmentSales (rowNumber + 1)
  | Add department sales =>
      readRows rest fieldsPerRecord departmentIndex salesIndex
        (addSales departmentSales department sales) (rowNumber + 1)
  | Panic =>
      (inl IndexOutOfRange,
       {| Csv.FieldsPerRecord := fieldsPerRecord; Csv.pending := rest |})
  end.
Proof.
  intros Hpos Hlen. cbn [readRows]. by rewrite checkFields_same.
Qed.

Lemma readRows_unreadable raw rest fieldsPerRecord departmentSales rowNumber x e :
  Csv.checkFields fieldsPerRecord raw = ((x, Some e), fieldsPerRecord) ->
  readRows (raw :: rest) fieldsPerRecord
    departmentIndex salesIndex departmentSales rowNumber =
  (inl (FailedToReadRecord (rowNumber + 1) e),
   {| Csv.FieldsPerRecord := fieldsPerRecord; Csv.pending := rest |}).
Proof. intros E. cbn [readRows]. by rewrite E. Qed.

Lemma recordsOf_Fields record rest :
  recordsOf (Csv.Fields record :: rest) = record :: recordsOf rest.
Proof. reflexivity. Qed.

Lemma added_cons record records :
  added departmentIndex salesIndex (record :: records) =
  match processRecord departmentIndex salesIndex record with
  | Add department sales =>
      (department, sales) :: added departmentIndex salesIndex records
  | _ => added departmentIndex salesIndex records
  end.
Proof.
  unfold added. simpl.
  by destruct (processRecord departmentIndex salesIndex record).
Qed.

(** A pass that reaches the end of the input has folded the rows that are
    not skipped into the accumulator, in order. *)
Lemma readRows_inr pending : forall fieldsPerRecord departmentSales rowNumber acc reader,
  readRows pending fieldsPerRecord departmentIndex salesIndex
    departmentSales rowNumber = (inr acc, reader) ->
  acc = foldl (fun m kv => addSales m kv.1 kv.2) departmentSales
          (added departmentIndex salesIndex (recordsOf pending)).
Proof.
  induction pending as [|raw rest IH]; intros n m rn acc reader; cbn [readRows].
  - intros [= <- _]. reflexivity.
  - destruct (Csv.checkFields n raw) as [[record [e|]] n'] eqn:E; [discriminate|].
    apply checkFields_ok in E as ->. rewrite recordsOf_Fields, added_cons.
    destruct (processRecord departmentIndex salesIndex record) as [why|d v|];
      [ | | discriminate]; simpl; apply IH.
Qed.

End LoopFacts.

Section CallFacts.

Context {strings : GoStrings}.

(** The call once the header has resolved. *)
Lemma ProcessSalesCSV_resolved header rows departmentIndex salesIndex :
  findColumnIndices header = (departmentIndex, salesIndex, None) ->
  ProcessSalesCSV (Csv.Fields header :: rows) =
  match readRows rows (len header) departmentIndex salesIndex ∅ 1 with
  | (inl e, reader) => (inl e, reader)
  | (inr departmentSales, reader) =>
      if Z.of_nat (size departmentSales) =? 0
      then (inl NoValidDataRows, reader)
      else (inr (summariesOf departmentSales), reader)
  end.
Proof.
  intros Hcols. unfold ProcessSalesCSV. rewrite Read_NewReader, Hcols.
  reflexivity.
Qed.

Lemma ProcessSalesCSV_unresolved header rows x y e :
  findColumnIndices header = (x, y, Some e) ->
  ProcessSalesCSV (Csv.Fields header :: rows) =
  (inl (FailedToFindColumns e),
   {| Csv.FieldsPerRecord := len header; Csv.pending := rows |}).
Proof.
  intros Hcols. unfold ProcessSalesCSV. rewrite Read_NewReader, Hcols.
  reflexivity.
Qed.

(** A call that returns summaries has read a header, resolved it and read
    every data row. *)
Lemma ProcessSalesCSV_inr file l :
  (ProcessSalesCSV file).1 = inr l ->
  exists header rows departmentIndex salesIndex departmentSales reader,
    file = Csv.Fields header :: rows /\
    findColumnIndices header = (departmentIndex, salesIndex, None) /\
    readRows rows (len header) departmentIndex salesIndex ∅ 1
      = (inr departmentSales, reader) /\
    departmentSales <> ∅ /\
    l = summariesOf departmentSales.
Proof.
  destruct file as [|[header|e] rows]; [discriminate| |discriminate].
  destruct (findColumnIndices header) as [[d s] [e|]] eqn:Hcols.
  { by rewrite (ProcessSalesCSV_unresolved _ _ _ _ _ Hcols). }
  rewrite (ProcessSalesCSV_resolved _ _ _ _ Hcols).
  destruct (readRows rows (len header) d s ∅ 1) as [[e|acc] reader] eqn:Hrows;
    [discriminate|].
  destruct (Z.eqb_spec (Z.of_nat (size acc)) 0) as [E|E]; [discriminate|].
  intros [= <-]. exists header, rows, d, s, acc, reader.
  repeat split; try done.
  intros ->. apply E. by rewrite map_size_empty.
Qed.

End CallFacts.

(** ** The accumulator *)

Lemma sumZ_perm (l l' : list Z) : l ≡ₚ l' -> sumZ l = sumZ l'.
Proof.
  induction 1 as [|x l l' _ IH|x y l|l l' l'' _ IH1 _ IH2]; simpl; lia.
Qed.

Lemma total_empty : total ∅ = 0.
Proof. unfold total. by rewrite map_to_list_empty. Qed.

Lemma total_insert_fresh (m : gmap string Z) k x :
  m !! k = None -> total (<[k:=x]> m) = x + total m.
Proof.
  intros Hk. unfold total.
  pose proof (map_to_list_insert m k x Hk) as P.
  apply (fmap_Permutation snd), sumZ_perm in P. by rewrite P.
Qed.

Section AccumulatorFacts.

Context {strings : GoStrings}.

(** One addition changes the sum of the totals by the change of one entry. *)
Lemma total_addSales (m : gmap string Z) d v :
  total (addSales m d v)
  = total m - default 0 (m !! d) + GoInt.add (default 0 (m !! d)) v.
Proof.
  unfold addSales. destruct (m !! d) as [y|] eqn:E; simpl.
  - rewrite <- (insert_delete_eq m), total_insert_fresh by apply lookup_delete_eq.
    rewrite <- (insert_delete_id m d y E) at 2.
    rewrite total_insert_fresh by apply lookup_delete_eq. lia.
  - rewrite total_insert_fresh by done. lia.
Qed.

Lemma addSales_lookup (m : gmap string Z) d v :
  addSales m d v !! d = Some (GoInt.add (default 0 (m !! d)) v).
Proof. unfold addSales. by rewrite lookup_insert_eq. Qed.

Lemma addSales_lookup_ne (m : gmap string Z) d v k :
  k <> d -> addSales m d v !! k = m !! k.
Proof. intros Hk. unfold addSales. by rewrite lookup_insert_ne. Qed.

Lemma addSales_nonempty (m : gmap string Z) d v : addSales m d v <> ∅.
Proof. unfold addSales. apply insert_non_empty. Qed.

Lemma total_foldl_wrap (adds : list (string * Z)) : forall m : gmap string Z,
  GoInt.wrap (total (foldl (fun m kv => addSales m kv.1 kv.2) m adds))
  = GoInt.wrap (total m + sumZ adds.*2).
Proof.
  induction adds as [|[d v] adds IH]; intros m; simpl.
  - f_equal. lia.
  - rewrite IH, total_addSales. unfold sumZ. apply wrap_step.
Qed.

Lemma total_foldl_exact (adds : list (string * Z)) : forall (m : gmap string Z) B,
  (forall k y, m !! k = Some y -> Z.abs y <= B) ->
  0 <= B ->
  B + sumZ (Z.abs <$> adds.*2) <= GoInt.maxInt ->
  total (foldl (fun m kv => addSales m kv.1 kv.2) m adds)
  = total m + sumZ adds.*2.
Proof.
  induction adds as [|[d v] adds IH]; intros m B Hm HB Hsum;
    unfold sumZ in *; csimpl in *.
  - lia.
  - assert (Hy : Z.abs (default 0 (m !! d)) <= B).
    { destruct (m !! d) as [y|] eqn:E; simpl; [by apply (Hm d) | lia]. }
    assert (Hrest : 0 <= sumZ (Z.abs <$> adds.*2)).
    { clear. unfold sumZ. induction adds as [|[d' v'] adds IH]; csimpl; lia. }
    unfold sumZ in Hrest.
    assert (Hadd : GoInt.add (default 0 (m !! d)) v = default 0 (m !! d) + v).
    { apply wrap_id. unfold GoInt.inRange, GoInt.minInt, GoInt.maxInt in *. lia. }
    rewrite (IH _ (B + Z.abs v)).
    + rewrite total_addSales, Hadd. lia.
    + intros k y. destruct (decide (k = d)) as [->|Hk].
      * rewrite addSales_lookup, Hadd. intros [= <-]. lia.
      * rewrite addSales_lookup_ne by done. intros Hk'%Hm. lia.
    + lia.
    + lia.
Qed.

Lemma foldl_addSales_nonempty (adds : list (string * Z)) : forall m : gmap string Z,
  m <> ∅ \/ adds <> [] ->
  foldl (fun m kv => addSales m kv.1 kv.2) m adds <> ∅.
Proof.
  induction adds as [|[d v] adds IH]; intros m [Hm|Hadds]; simpl; try done.
  - apply IH. left. apply addSales_nonempty.
  - apply IH. left. apply addSales_nonempty.
Qed.

Lemma summariesOf_totals (m : gmap string Z) :
  TotalSales <$> summariesOf m = (map_to_list m).*2.
Proof.
  unfold summariesOf.
  induction (map_to_list m) as [|kv l IH]; csimpl; [done | by f_equal].
Qed.

Lemma summariesOf_keys (m : gmap string Z) :
  Department <$> summariesOf m = (map_to_list m).*1.
Proof.
  unfold summariesOf.
  induction (map_to_list m) as [|kv l IH]; csimpl; [done | by f_equal].
Qed.

Lemma sumTotals_summariesOf (m : gmap string Z) :
  sumTotals (summariesOf m) = total m.
Proof. unfold sumTotals, total. by rewrite summariesOf_totals. Qed.

End AccumulatorFacts.

(** The accumulator at the end of a pass has no entry exactly when no row
    was added, that is when every row was skipped or there was none. *)
Lemma readRows_empty_iff `{GoStrings} rows fieldsPerRecord departmentIndex salesIndex
    rowNumber (acc : gmap string Z) reader :
  readRows rows fieldsPerRecord departmentIndex salesIndex ∅ rowNumber
    = (inr acc, reader) ->
  acc = ∅ <-> added departmentIndex salesIndex (recordsOf rows) = [].
Proof.
  intros ->%readRows_inr. split.
  - intros Hempty.
    destruct (added departmentIndex salesIndex (recordsOf rows)) as [|kv adds] eqn:E;
      [reflexivity|].
    exfalso. revert Hempty. apply foldl_addSales_nonempty. by right.
  - by intros ->.
Qed.

(** ** C1: the sum of the totals *)

Section SumOfTotals.

Context {strings : GoStrings}.

(** C1, as the code has it.  When a call returns summaries, the sum of their
    totals and the sum of the parsed values of the rows that were not skipped
    are equal as 64-bit integers, that is modulo 2^64; they are equal as
    integers when the absolute values of the parsed values add up to at most
    the largest [int]; and no group key occurs in two summaries. *)
Theorem totals_sum_modulo (file : Csv.File) (summaries : list DepartmentSummary) :
  Returns file summaries ->
  GoInt.wrap (sumTotals summaries) = GoInt.wrap (sumZ (parsedValues file)) /\
  (sumZ (Z.abs <$> parsedValues file) <= GoInt.maxInt ->
   sumTotals summaries = sumZ (parsedValues file)) /\
  NoDup (Department <$> summaries).
Proof.
  intros (l & Hret & Hperm).
  apply ProcessSalesCSV_inr in Hret
    as (header & rows & d & s & acc & reader & -> & Hcols & Hrows & _ & ->).
  apply readRows_inr in Hrows.
  assert (Hvals : parsedValues (Csv.Fields header :: rows)
                  = (added d s (recordsOf rows)).*2).
  { unfold parsedValues. by rewrite Hcols. }
  assert (Hsum : sumTotals summaries = total acc).
  { rewrite <- sumTotals_summariesOf. unfold sumTotals.
    apply sumZ_perm. by apply fmap_Permutation. }
  rewrite Hvals, Hsum, Hrows. split; [|split].
  - rewrite total_foldl_wrap, total_empty. f_equal.
  - intros Hbound. rewrite (total_foldl_exact _ ∅ 0), total_empty; [lia| |lia|lia].
    intros k y. by rewrite lookup_empty.
  - rewrite Hperm, summariesOf_keys. apply NoDup_fst_map_to_list.
Qed.

End SumOfTotals.

(** ** C3, C4, C9: column resolution *)

Section ColumnResolution.

Context {strings : GoStrings}.

(** C3.  On a header with a cell whose normalized form is a department name
    and a cell whose normalized form is a sales name, [findColumnIndices]
    succeeds, and each index it returns is the position of the leftmost cell
    matching that role: the cell there matches and no cell before it does,
    whatever matches come later and wherever the other role matched. *)
Theorem findColumnIndices_leftmost (header : list string) :
  Exists (fun col => isDepartmentColumn (ToLower (TrimSpace col)) = true) header ->
  Exists (fun col => isSalesColumn (ToLower (TrimSpace col)) = true) header ->
  exists d s : nat,
    findColumnIndices header = (Z.of_nat d, Z.of_nat s, None) /\
    leftmost isDepartmentColumn header d /\
    leftmost isSalesColumn header s.
Proof.
  intros [d Hd]%firstIndex_Some_Exists [s Hs]%firstIndex_Some_Exists.
  exists d, s. rewrite findColumnIndices_spec, Hd, Hs.
  by rewrite <- !firstIndex_leftmost.
Qed.

(** C4.  Without a department cell the call fails with the missing
    department column, also when the sales column is missing too; with a
    department cell and no sales cell it fails with the missing sales column,
    a different error.  [ProcessSalesCSV] then returns that error with every
    data row still pending in the reader, whatever the data rows are. *)
Theorem findColumnIndices_missing (header : list string) (rows : Csv.File)
    (e : ColumnError) :
  (e = DepartmentColumnNotFound /\
   Forall (fun col => isDepartmentColumn (ToLower (TrimSpace col)) = false) header) \/
  (e = SalesColumnNotFound /\
   Exists (fun col => isDepartmentColumn (ToLower (TrimSpace col)) = true) header /\
   Forall (fun col => isSalesColumn (ToLower (TrimSpace col)) = false) header) ->
  findColumnIndices header = (-1, -1, Some e) /\
  ProcessSalesCSV (Csv.Fields header :: rows) =
    (inl (FailedToFindColumns e),
     {| Csv.FieldsPerRecord := len header; Csv.pending := rows |}).
Proof.
  intros H.
  assert (E : findColumnIndices header = (-1, -1, Some e)).
  { rewrite findColumnIndices_spec.
    destruct H as [[-> Hd%firstIndex_None]
                  |(-> & [d Hd]%firstIndex_Some_Exists & Hs%firstIndex_None)].
    - by rewrite Hd.
    - by rewrite Hd, Hs. }
  split; [exact E|]. by apply ProcessSalesCSV_unresolved with (-1) (-1).
Qed.

(** No normalized cell is both a department name and a sales name. *)
Lemma roles_disjoint (colLower : string) :
  isSalesColumn colLower = true -> isDepartmentColumn colLower = false.
Proof.
  unfold isSalesColumn. intros H.
  repeat (apply orb_prop in H as [H|H]);
    apply String.eqb_eq in H; subst colLower; reflexivity.
Qed.

(** C9.  The two indices of a successful resolution differ, since no
    normalized cell satisfies both the department condition and the sales
    condition. *)
Theorem findColumnIndices_distinct (header : list string) (departmentIndex salesIndex : Z) :
  findColumnIndices header = (departmentIndex, salesIndex, None) ->
  departmentIndex <> salesIndex /\
  forall colLower, isDepartmentColumn colLower && isSalesColumn colLower = false.
Proof.
  intros (d & s & -> & -> & [(c & Hc & Hd) _] & [(c' & Hc' & Hs) _])%findColumnIndices_ok.
  split.
  - intros E. apply Nat2Z.inj in E as ->.
    rewrite Hc in Hc'. injection Hc' as <-.
    apply roles_disjoint in Hs. congruence.
  - intros colLower. destruct (isSalesColumn colLower) eqn:E.
    + by rewrite roles_disjoint.
    + apply andb_false_r.
Qed.

End ColumnResolution.

(** ** The row policy *)

Section RowPolicy.

Context {strings : GoStrings}.


Lemma index_is_Some {A} (l : list A) i :
  0 <= i < len l -> exists x, index l i = Some x.
Proof.
  unfold index, len. intros Hi. destruct (Z.ltb_spec i 0); [lia|].
  apply lookup_lt_is_Some. lia.
Qed.

(** The first guard: a record shorter than either index asks for. *)
Lemma processRecord_short departmentIndex salesIndex record :
  len record < Z.max departmentIndex salesIndex + 1 ->
  processRecord departmentIndex salesIndex record = Skip InsufficientColumns.
Proof.
  intros Hlen. unfold processRecord.
  destruct (Z.leb_spec (len record) departmentIndex); [reflexivity|].
  destruct (Z.leb_spec (len record) salesIndex); [reflexivity | lia].
Qed.


(** With indices that are not negative no slice access panics. *)
Lemma processRecord_no_panic departmentIndex salesIndex record :
  0 <= departmentIndex -> 0 <= salesIndex ->
  processRecord departmentIndex salesIndex record <> Panic.
Proof.
  intros Hd Hs. unfold processRecord.
  destruct (Z.leb_spec (len record) departmentIndex); [done|].
  destruct (Z.leb_spec (len record) salesIndex); [done|]. simpl.
  destruct (index_is_Some record departmentIndex) as [cell ->]; [lia|].
  destruct (index_is_Some record salesIndex) as [cell' ->]; [lia|].
  destruct (String.eqb (TrimSpace cell) ""); [done|].
  by destruct (Strconv.Atoi (TrimSpace cell')) as [sales [e|]].
Qed.

(** The rows before the first one that fails to be read do not stop the
    pass; that row does, and its number is reported. *)
Lemma readRows_first_failure departmentIndex salesIndex fieldsPerRecord
    (good : Csv.File) bad rest x e :
  0 < fieldsPerRecord -> 0 <= departmentIndex -> 0 <= salesIndex ->
  Forall (readable fieldsPerRecord) good ->
  Csv.checkFields fieldsPerRecord bad = ((x, Some e), fieldsPerRecord) ->
  forall departmentSales rowNumber,
  readRows (good ++ bad :: rest) fieldsPerRecord departmentIndex salesIndex
    departmentSales rowNumber =
  (inl (FailedToReadRecord (rowNumber + len good + 1) e),
   {| Csv.FieldsPerRecord := fieldsPerRecord; Csv.pending := rest |}).
Proof.
  intros Hpos Hd Hs Hgood Hbad.
  induction Hgood as [|raw good Hraw _ IH]; intros m rn.
  - rewrite app_nil_l, (readRows_unreadable _ _ _ _ _ _ _ x e) by done.
    do 3 f_equal. unfold len. simpl. lia.
  - apply readable_iff in Hraw as (record & -> & Hlen); [|done].
    rewrite <- app_comm_cons, readRows_readable by done.
    pose proof (processRecord_no_panic departmentIndex salesIndex record Hd Hs).
    destruct (processRecord departmentIndex salesIndex record); [| |done];
      rewrite IH; do 3 f_equal; unfold len; simpl length; lia.
Qed.

(** Rows that are all read and all skipped leave the accumulator as it is. *)
Lemma readRows_all_skipped departmentIndex salesIndex fieldsPerRecord
    (rows : Csv.File) :
  0 < fieldsPerRecord ->
  Forall (fun raw => exists record, raw = Csv.Fields record /\
            len record = fieldsPerRecord /\
            exists why, processRecord departmentIndex salesIndex record = Skip why)
    rows ->
  forall departmentSales rowNumber,
  readRows rows fieldsPerRecord departmentIndex salesIndex departmentSales rowNumber
  = (inr departmentSales,
     {| Csv.FieldsPerRecord := fieldsPerRecord; Csv.pending := [] |}).
Proof.
  intros Hpos Hrows.
  induction Hrows as [|raw rows (record & -> & Hlen & why & Hskip) _ IH];
    intros m rn; [reflexivity|].
  rewrite readRows_readable, Hskip by done. apply IH.
Qed.

End RowPolicy.

(** ** C2, C5, C6, C7, C10: the aggregation pass *)

Section AggregationPass.

Context {strings : GoStrings}.

(** C2, as the code has it.  A data row with fewer cells than
    [max(departmentIndex, salesIndex) + 1] is one the first guard of the loop
    body would skip, but it never gets there: it has fewer fields than the
    header, the reader returns it with [ErrFieldCount], and the call returns
    the read error with the row's number. *)
Theorem short_row_aborts (header : list string) (good : Csv.File)
    (record : list string) (rest : Csv.File) (departmentIndex salesIndex : Z) :
  findColumnIndices header = (departmentIndex, salesIndex, None) ->
  Forall (readable (len header)) good ->
  len record < Z.max departmentIndex salesIndex + 1 ->
  processRecord departmentIndex salesIndex record = Skip InsufficientColumns /\
  ProcessSalesCSV (Csv.Fields header :: good ++ Csv.Fields record :: rest) =
    (inl (FailedToReadRecord (len good + 2) Csv.ErrFieldCount),
     {| Csv.FieldsPerRecord := len header; Csv.pending := rest |}).
Proof.
  intros Hcols Hgood Hshort. split; [by apply processRecord_short|].
  pose proof (findColumnIndices_bounds _ _ _ Hcols) as [Hd Hs].
  rewrite (ProcessSalesCSV_resolved _ _ _ _ Hcols).
  rewrite (readRows_first_failure _ _ _ good _ rest record Csv.ErrFieldCount);
    try done; try lia.
  - do 3 f_equal. lia.
  - apply checkFields_other; lia.
Qed.

(** C5.  After a header that resolves, the first data row that the reader
    fails to deliver ends the call with the read error carrying that row's
    number, where the header is row 1 and the first data row is row 2; the
    call returns the error and no summaries, whatever the rows before it
    added. *)
Theorem unreadable_row_aborts (header : list string) (good : Csv.File)
    (bad : Csv.RawRecord) (rest : Csv.File) (departmentIndex salesIndex : Z) :
  findColumnIndices header = (departmentIndex, salesIndex, None) ->
  Forall (readable (len header)) good ->
  ~ readable (len header) bad ->
  exists e,
    (Csv.checkFields (len header) bad).1.2 = Some e /\
    ProcessSalesCSV (Csv.Fields header :: good ++ bad :: rest) =
      (inl (FailedToReadRecord (len good + 2) e),
       {| Csv.FieldsPerRecord := len header; Csv.pending := rest |}).
Proof.
  intros Hcols Hgood Hbad.
  pose proof (findColumnIndices_bounds _ _ _ Hcols) as [Hd Hs].
  assert (Hpos : 0 < len header) by lia.
  pose proof (checkFields_keeps (len header) bad Hpos) as Hn.
  unfold readable in Hbad.
  destruct (Csv.checkFields (len header) bad) as [[x [e|]] n] eqn:E; [|done].
  simpl in Hn. subst n. exists e. split; [reflexivity|].
  rewrite (ProcessSalesCSV_resolved _ _ _ _ Hcols).
  rewrite (readRows_first_failure _ _ _ good _ rest x e); try done; try lia.
  do 3 f_equal. lia.
Qed.

(** C6.  After a header that resolves, a pass that ends with no entry in
    the accumulator makes the call fail with the empty-result error; this is
    what happens when every data row is read and skipped, so also when there
    is no data row. *)
Theorem empty_result (header : list string) (rows : Csv.File)
    (departmentIndex salesIndex : Z) :
  findColumnIndices header = (departmentIndex, salesIndex, None) ->
  (forall departmentSales reader,
     readRows rows (len header) departmentIndex salesIndex ∅ 1
       = (inr departmentSales, reader) ->
     size departmentSales = 0%nat ->
     ProcessSalesCSV (Csv.Fields header :: rows) = (inl NoValidDataRows, reader)) /\
  (Forall (fun raw => exists record, raw = Csv.Fields record /\
             len record = len header /\
             exists why, processRecord departmentIndex salesIndex record = Skip why)
     rows ->
   ProcessSalesCSV (Csv.Fields header :: rows) =
     (inl NoValidDataRows,
      {| Csv.FieldsPerRecord := len header; Csv.pending := [] |})) /\
  ProcessSalesCSV [Csv.Fields header] =
    (inl NoValidDataRows,
     {| Csv.FieldsPerRecord := len header; Csv.pending := [] |}).
Proof.
  intros Hcols.
  pose proof (findColumnIndices_bounds _ _ _ Hcols) as [Hd Hs].
  split; [|split].
  - intros m reader Hrows Hsize. apply map_size_empty_iff in Hsize as ->.
    by rewrite (ProcessSalesCSV_resolved _ _ _ _ Hcols), Hrows.
  - intros Hrows. rewrite (ProcessSalesCSV_resolved _ _ _ _ Hcols).
    rewrite readRows_all_skipped by (done || lia). reflexivity.
  - by rewrite (ProcessSalesCSV_resolved _ _ _ _ Hcols).
Qed.



End AggregationPass.

(** ** C8: the result file *)

Lemma str_app_cons c s t : String c s +:+ t = String c (s +:+ t).
Proof. reflexivity. Qed.

Lemma str_app_nil_r s : s +:+ "" = s.
Proof. induction s as [|c s IH]; [reflexivity|]. by rewrite str_app_cons, IH. Qed.

Lemma str_app_assoc s t u : (s +:+ t) +:+ u = s +:+ (t +:+ u).
Proof.
  induction s as [|c s IH]; [reflexivity|]. by rewrite !str_app_cons, IH.
Qed.

Lemma byte_digitChar d : 0 <= d <= 9 -> byte (digitChar d) = 48 + d.
Proof.
  intros Hd. unfold byte, digitChar. rewrite N_ascii_embedding; lia.
Qed.

Lemma isDigit_digitChar d : 0 <= d <= 9 -> isDigit (digitChar d) = true.
Proof.
  intros Hd. unfold isDigit. rewrite byte_digitChar by done.
  apply andb_true_intro. split; lia.
Qed.

Lemma fmtDigits_app room : forall u buf,
  fmtDigits room u buf = fmtDigits room u "" +:+ buf.
Proof.
  induction room as [|room IH]; intros u buf; simpl; [reflexivity|].
  destruct (u >=? 10); [|reflexivity].
  rewrite IH, (IH _ (String _ "")). by rewrite str_app_assoc.
Qed.

(** The last byte of the digits is a digit. *)
Lemma fmtDigits_last room u :
  0 <= u -> exists pre c,
    fmtDigits (S room) u "" = pre +:+ String c "" /\ isDigit c = true.
Proof.
  intros Hu. simpl. destruct (Z.geb_spec u 10) as [Hge|Hlt].
  - exists (fmtDigits room (u / 10) ""), (digitChar (u - u / 10 * 10)).
    split; [apply fmtDigits_app|].
    apply isDigit_digitChar. pose proof (Z.div_mod u 10).
    pose proof (Z.mod_pos_bound u 10). lia.
  - exists "", (digitChar u). split; [reflexivity|].
    apply isDigit_digitChar. lia.
Qed.

(** The first byte of the digits is a digit. *)
Lemma fmtDigits_head room : forall u buf,
  0 <= u -> exists c rest,
    fmtDigits (S room) u buf = String c rest /\ isDigit c = true.
Proof.
  induction room as [|room IH]; intros u buf Hu;
    cbn [fmtDigits]; destruct (Z.geb_spec u 10) as [Hge|Hlt].
  - eexists _, _. split; [reflexivity|].
    apply isDigit_digitChar. pose proof (Z.div_mod u 10).
    pose proof (Z.mod_pos_bound u 10). lia.
  - eexists _, _. split; [reflexivity|]. apply isDigit_digitChar. lia.
  - apply IH. apply Z.div_pos; lia.
  - eexists _, _. split; [reflexivity|]. apply isDigit_digitChar. lia.
Qed.

(** Read back, the digits denote the number they were made from. *)
Lemma fmtDigits_value room : forall u buf,
  0 <= u < 10 ^ Z.of_nat room ->
  exists p, forall acc,
    Strconv.digitsValue (fmtDigits room u buf) acc
    = Strconv.digitsValue buf (acc * p + u).
Proof.
  induction room as [|room IH]; intros u buf Hu.
  - exists 1. intros acc. simpl in *. f_equal. lia.
  - rewrite Nat2Z.inj_succ, Z.pow_succ_r in Hu by lia.
    cbn [fmtDigits]. destruct (Z.geb_spec u 10) as [Hge|Hlt].
    + pose proof (Z.div_mod u 10) as Hdm.
      pose proof (Z.mod_pos_bound u 10) as Hmod.
      destruct (IH (u / 10) (String (digitChar (u - u / 10 * 10)) buf)) as [p Hp].
      { split; [apply Z.div_pos; lia|]. apply Z.div_lt_upper_bound; lia. }
      exists (p * 10). intros acc. rewrite Hp. cbn [Strconv.digitsValue].
      rewrite isDigit_digitChar, byte_digitChar by lia. f_equal. lia.
    + exists 10. intros acc. cbn [Strconv.digitsValue].
      rewrite isDigit_digitChar, byte_digitChar by lia. f_equal. lia.
Qed.

Lemma digit_not_sign c :
  isDigit c = true -> Ascii.eqb c "+" = false /\ Ascii.eqb c "-" = false.
Proof.
  intros Hc. split.
  - destruct (Ascii.eqb_spec c "+") as [->|]; [discriminate | reflexivity].
  - destruct (Ascii.eqb_spec c "-") as [->|]; [discriminate | reflexivity].
Qed.

Lemma fmtDigits_unsignedValue u :
  0 <= u < 2 ^ 64 ->
  Strconv.unsignedValue (fmtDigits 20 u "") = Some u /\
  exists c rest, fmtDigits 20 u "" = String c rest /\ isDigit c = true.
Proof.
  intros Hu.
  destruct (fmtDigits_head 19 u "") as (c & rest & E & Hc); [lia|].
  split; [|by eauto].
  destruct (fmtDigits_value 20 u "") as [p Hp]; [lia|].
  unfold Strconv.unsignedValue.
  replace (match fmtDigits 20 u "" with
           | "" => None
           | String _ _ => Strconv.digitsValue (fmtDigits 20 u "") 0
           end) with (Strconv.digitsValue (fmtDigits 20 u "") 0)
    by (by rewrite E).
  rewrite Hp. simpl. f_equal.
Qed.

(** [%d] writes the decimal notation of the number. *)
Lemma fmtInteger_decimal n :
  GoInt.inRange n -> Strconv.decimalValue (fmtInteger n) = Some n.
Proof.
  unfold GoInt.inRange, GoInt.minInt, GoInt.maxInt. intros Hn.
  unfold fmtInteger. destruct (Z.ltb_spec n 0) as [Hneg|Hpos].
  - assert (Hu : GoInt.toUint64 (- n) = - n).
    { unfold GoInt.toUint64. apply Z.mod_small. lia. }
    rewrite Hu.
    destruct (fmtDigits_unsignedValue (- n)) as [Hval _]; [lia|].
    cbn [Strconv.decimalValue]. change (Ascii.eqb "-" "+") with false.
    change (Ascii.eqb "-" "-") with true. cbv iota.
    rewrite Hval. simpl. f_equal. lia.
  - destruct (fmtDigits_unsignedValue n) as [Hval (c & rest & E & Hc)]; [lia|].
    rewrite E in *. apply digit_not_sign in Hc as [Hplus Hminus].
    cbn [Strconv.decimalValue]. by rewrite Hplus, Hminus.
Qed.

Lemma fmtInteger_last n :
  exists pre c, fmtInteger n = pre +:+ String c "" /\ isDigit c = true.
Proof.
  unfold fmtInteger. destruct (Z.ltb_spec n 0) as [Hneg|Hpos].
  - destruct (fmtDigits_last 19 (GoInt.toUint64 (- n))) as (pre & c & E & Hc).
    { unfold GoInt.toUint64. apply Z.mod_pos_bound. lia. }
    exists (String "-" pre), c. by rewrite E.
  - destruct (fmtDigits_last 19 n) as (pre & c & E & Hc); [lia|].
    by exists pre, c.
Qed.

Lemma SaveResultFile_fold (l : list DepartmentSummary) : forall file,
  fold_left (fun file summary => WriteString file (formatLine summary)) l file
  = file +:+ concatLines (formatLine <$> l).
Proof.
  induction l as [|r l IH]; intros file; csimpl.
  - by rewrite str_app_nil_r.
  - rewrite IH. unfold WriteString. apply str_app_assoc.
Qed.

Lemma concatLines_last (lines : list string) (last : string) :
  concatLines (lines ++ [last]) = concatLines lines +:+ last.
Proof.
  induction lines as [|x lines IH]; simpl.
  - apply str_app_nil_r.
  - unfold concatLines in *. simpl. by rewrite IH, str_app_assoc.
Qed.

(** C8.  The file written for a list of summaries is the header line
    [Department Name,Total Number of Sales] and then, for each summary in
    order, its department as it is, a comma, the decimal notation of its
    total and a line feed; nothing follows the last line feed, and the byte
    before it is not a line feed. *)
Theorem SaveResultFile_format (departmentSummaries : list DepartmentSummary) :
  SaveResultFile departmentSummaries =
    ("Department Name,Total Number of Sales" +:+ nl) +:+
    concatLines
      ((fun summary =>
          Department summary +:+ "," +:+ fmtInteger (TotalSales summary) +:+ nl)
       <$> departmentSummaries) /\
  Forall (fun summary =>
            GoInt.inRange (TotalSales summary) ->
            Strconv.decimalValue (fmtInteger (TotalSales summary))
            = Some (TotalSales summary)) departmentSummaries /\
  exists body c,
    SaveResultFile departmentSummaries = body +:+ String c nl /\
    c <> ascii_of_nat 10.
Proof.
  assert (Hfile : SaveResultFile departmentSummaries =
    ("Department Name,Total Number of Sales" +:+ nl) +:+
    concatLines (formatLine <$> departmentSummaries)).
  { unfold SaveResultFile. rewrite SaveResultFile_fold. reflexivity. }
  split; [exact Hfile|]. split.
  - apply Forall_forall. intros r _. apply fmtInteger_decimal.
  - rewrite Hfile.
    destruct departmentSummaries as [|r l _] using rev_ind.
    + exists "Department Name,Total Number of Sale", "s"%char.
      split; [reflexivity | discriminate].
    + rewrite fmap_app. change (formatLine <$> [r]) with [formatLine r].
      rewrite concatLines_last. unfold formatLine at 2.
      destruct (fmtInteger_last (TotalSales r)) as (pre & c & -> & Hc).
      exists (("Department Name,Total Number of Sales" +:+ nl) +:+
              concatLines (formatLine <$> l) +:+ Department r +:+ "," +:+ pre), c.
      split.
      * rewrite !str_app_assoc. reflexivity.
      * intros ->. discriminate.
Qed.

(** * The tests of the repository, and the claims at concrete inputs *)

Section Concrete.

Local Existing Instance AsciiText.strings.

Import Scenarios.

Example standard_returns :
  Returns standard
    [summary "Electronics" 2500; summary "Clothing" 700; summary "Books" 300].
Proof.
  eexists. split; [vm_compute; reflexivity|]. apply perm_swap.
Qed.

Example synonyms_returns :
  Returns synonyms [summary "Electronics" 1000; summary "Clothing" 500].
Proof.
  eexists. split; [vm_compute; reflexivity|]. apply perm_swap.
Qed.

Example emptyDepartment_returns :
  Returns emptyDepartment [summary "Electronics" 1000; summary "Books" 300].
Proof. eexists. split; [vm_compute; reflexivity|]. reflexivity. Qed.

Example invalidSales_returns :
  Returns invalidSales [summary "Electronics" 1000; summary "Books" 300].
Proof. eexists. split; [vm_compute; reflexivity|]. reflexivity. Qed.

Example noColumns_fails :
  (ProcessSalesCSV noColumns).1 = inl (FailedToFindColumns DepartmentColumnNotFound).
Proof. reflexivity. Qed.

Example headerOnly_fails : (ProcessSalesCSV headerOnly).1 = inl NoValidDataRows.
Proof. reflexivity. Qed.

Example allInvalid_fails : (ProcessSalesCSV allInvalid).1 = inl NoValidDataRows.
Proof. reflexivity. Qed.

Example header_cases :
  findColumnIndices ["department"; "sales"] = (0, 1, None) /\
  findColumnIndices ["Department"; "Sales"] = (0, 1, None) /\
  findColumnIndices ["dept"; "amount"] = (0, 1, None) /\
  findColumnIndices ["id"; "department"; "sales"; "date"] = (1, 2, None) /\
  findColumnIndices ["name"; "sales"] = (-1, -1, Some DepartmentColumnNotFound) /\
  findColumnIndices ["department"; "name"] = (-1, -1, Some SalesColumnNotFound).
Proof. repeat split. Qed.

Example SaveResultFile_test :
  SaveResultFile
    [summary "Electronics" 2500; summary "Clothing" 700; summary "Books" 300]
  = "Department Name,Total Number of Sales" +:+ nl +:+
    "Electronics,2500" +:+ nl +:+ "Clothing,700" +:+ nl +:+ "Books,300" +:+ nl.
Proof. reflexivity. Qed.

(** C1 at the standard input, in the order the test lists the summaries. *)
Lemma totals_sum_modulo_witness :
  GoInt.wrap (sumTotals [summary "Electronics" 2500; summary "Clothing" 700;
                         summary "Books" 300])
  = GoInt.wrap (sumZ (parsedValues standard)) /\
  (sumZ (Z.abs <$> parsedValues standard) <= GoInt.maxInt ->
   sumTotals [summary "Electronics" 2500; summary "Clothing" 700;
              summary "Books" 300]
   = sumZ (parsedValues standard)) /\
  NoDup (Department <$> [summary "Electronics" 2500; summary "Clothing" 700;
                         summary "Books" 300]).
Proof.
  apply (totals_sum_modulo standard).
  eexists. split; [vm_compute; reflexivity|]. apply perm_swap.
Defined.

(** C1 as it is stated fails when a total overflows: the call returns one
    summary whose total is the least [int], while the two parsed values add
    up to 2^63. *)
Lemma totals_sum_counterexample :
  Returns overflow [summary "Electronics" (-9223372036854775808)] /\
  parsedValues overflow = [9223372036854775807; 1] /\
  sumTotals [summary "Electronics" (-9223372036854775808)]
  <> sumZ (parsedValues overflow).
Proof.
  split; [|split].
  - eexists. split; [vm_compute; reflexivity | reflexivity].
  - vm_compute. reflexivity.
  - vm_compute. discriminate.
Qed.

(** C2 at the input with a short row: the call fails at row 3. *)
Lemma short_row_aborts_witness :
  processRecord 0 1 ["Clothing"] = Skip InsufficientColumns /\
  ProcessSalesCSV shortRow =
    (inl (FailedToReadRecord 3 Csv.ErrFieldCount),
     {| Csv.FieldsPerRecord := 2; Csv.pending := [row ["Books"; "300"]] |}).
Proof.
  apply (short_row_aborts ["department"; "sales"] [row ["Electronics"; "1000"]]
           ["Clothing"] [row ["Books"; "300"]] 0 1).
  - reflexivity.
  - repeat constructor.
  - vm_compute. reflexivity.
Defined.

Lemma findColumnIndices_leftmost_witness :
  exists d s : nat,
    findColumnIndices ["id"; " Department "; "dept"; "Sales"; "amount"]
    = (Z.of_nat d, Z.of_nat s, None) /\
    leftmost isDepartmentColumn ["id"; " Department "; "dept"; "Sales"; "amount"] d /\
    leftmost isSalesColumn ["id"; " Department "; "dept"; "Sales"; "amount"] s.
Proof.
  apply (findColumnIndices_leftmost ["id"; " Department "; "dept"; "Sales"; "amount"]).
  - apply Exists_cons_tl, Exists_cons_hd. reflexivity.
  - do 3 apply Exists_cons_tl. apply Exists_cons_hd. reflexivity.
Defined.

Lemma findColumnIndices_missing_witness :
  (findColumnIndices ["name"; "age"] = (-1, -1, Some DepartmentColumnNotFound) /\
   ProcessSalesCSV noColumns =
     (inl (FailedToFindColumns DepartmentColumnNotFound),
      {| Csv.FieldsPerRecord := 2;
         Csv.pending := [row ["John"; "25"]; row ["Jane"; "30"]] |})) /\
  (findColumnIndices ["department"; "name"] = (-1, -1, Some SalesColumnNotFound) /\
   ProcessSalesCSV [row ["department"; "name"]; Csv.Malformed Csv.ErrQuote] =
     (inl (FailedToFindColumns SalesColumnNotFound),
      {| Csv.FieldsPerRecord := 2;
         Csv.pending := [Csv.Malformed Csv.ErrQuote] |})).
Proof.
  split.
  - apply (findColumnIndices_missing ["name"; "age"]
             [row ["John"; "25"]; row ["Jane"; "30"]] DepartmentColumnNotFound).
    left. split; [reflexivity|]. repeat constructor.
  - apply (findColumnIndices_missing ["department"; "name"]
             [Csv.Malformed Csv.ErrQuote] SalesColumnNotFound).
    right. split; [reflexivity|]. split.
    + apply Exists_cons_hd. reflexivity.
    + repeat constructor.
Defined.

Lemma unreadable_row_aborts_witness :
  exists e,
    (Csv.checkFields 2 (Csv.Malformed Csv.ErrBareQuote)).1.2 = Some e /\
    ProcessSalesCSV bareQuote =
      (inl (FailedToReadRecord 3 e),
       {| Csv.FieldsPerRecord := 2; Csv.pending := [row ["Books"; "300"]] |}).
Proof.
  apply (unreadable_row_aborts ["department"; "sales"] [row ["Electronics"; "1000"]]
           (Csv.Malformed Csv.ErrBareQuote) [row ["Books"; "300"]] 0 1).
  - reflexivity.
  - repeat constructor.
  - unfold readable. simpl. discriminate.
Defined.

(** C6 where every value cell is unparseable, and at the header alone. *)
Lemma empty_result_witness :
  ProcessSalesCSV allInvalid =
    (inl NoValidDataRows, {| Csv.FieldsPerRecord := 2; Csv.pending := [] |}) /\
  ProcessSalesCSV headerOnly =
    (inl NoValidDataRows, {| Csv.FieldsPerRecord := 2; Csv.pending := [] |}).
Proof.
  destruct (empty_result ["department"; "sales"]
              [row ["Electronics"; "n/a"]; row ["Books"; "1.5"]] 0 1)
    as (_ & Hskipped & Hheader); [reflexivity|].
  split; [|exact Hheader]. apply Hskipped.
  repeat constructor; eexists; (split; [reflexivity|]); (split; [reflexivity|]);
    eexists; vm_compute; reflexivity.
Defined.


Example case_sensitive_keys :
  (ProcessSalesCSV
     [row ["department"; "sales"]; row ["books"; "7"]; row ["  Books "; " +300 "]]).1
  = inr [summary "books" 7; summary "Books" 300].
Proof. vm_compute. reflexivity. Qed.

(** C9 at the header with extra columns. *)
Lemma findColumnIndices_distinct_witness :
  1 <> 2 /\
  forall colLower, isDepartmentColumn colLower && isSalesColumn colLower = false.
Proof.
  apply (findColumnIndices_distinct ["id"; "department"; "sales"; "date"] 1 2).
  reflexivity.
Defined.


Example total_wraps :
  (ProcessSalesCSV overflow).1 = inr [summary "Electronics" GoInt.minInt].
Proof. vm_compute. reflexivity. Qed.

Example out_of_range_skipped :
  (ProcessSalesCSV
     [row ["department"; "sales"]; row ["A"; "9223372036854775808"]; row ["B"; "2"]]).1
  = inr [summary "B" 2].
Proof. vm_compute. reflexivity. Qed.

End Concrete.

(** * Further properties of the services *)

(** ** The pass as a whole *)

Section WholePass.

Context {strings : GoStrings}.

Lemma readRows_no_panic departmentIndex salesIndex rows :
  0 <= departmentIndex -> 0 <= salesIndex ->
  forall fieldsPerRecord departmentSales rowNumber,
  (readRows rows fieldsPerRecord departmentIndex salesIndex
     departmentSales rowNumber).1 <> inl IndexOutOfRange.
Proof.
  intros Hd Hs. induction rows as [|raw rows IH]; intros n m rn; cbn [readRows];
    [done|].
  destruct (Csv.checkFields n raw) as [[record [e|]] n']; [done|].
  pose proof (processRecord_no_panic departmentIndex salesIndex record Hd Hs).
  destruct (processRecord departmentIndex salesIndex record); [apply IH..|done].
Qed.

(** The loop returns with a read error or not at all. *)
Lemma readRows_inl departmentIndex salesIndex rows :
  0 <= departmentIndex -> 0 <= salesIndex ->
  forall fieldsPerRecord departmentSales rowNumber e,
  (readRows rows fieldsPerRecord departmentIndex salesIndex
     departmentSales rowNumber).1 = inl e ->
  exists row ce, e = FailedToReadRecord row ce.
Proof.
  intros Hd Hs. induction rows as [|raw rows IH]; intros n m rn e; cbn [readRows];
    [done|].
  destruct (Csv.checkFields n raw) as [[record [ce|]] n'].
  { intros [= <-]. by eauto. }
  pose proof (processRecord_no_panic departmentIndex salesIndex record Hd Hs).
  destruct (processRecord departmentIndex salesIndex record); [apply IH..|done].
Qed.

(** X1.  No call ends in the run-time panic of a slice index: the indices
    the header scan returns are never negative, and the first guard of the
    loop body keeps them below the length of the record. *)
Theorem ProcessSalesCSV_never_panics (file : Csv.File) :
  (ProcessSalesCSV file).1 <> inl IndexOutOfRange.
Proof.
  unfold ProcessSalesCSV.
  destruct (Csv.Read (Csv.NewReader file)) as [[header [e|]] reader]; [done|].
  destruct (findColumnIndices header) as [[d s] [e|]] eqn:Hcols; [done|].
  apply findColumnIndices_bounds in Hcols as [Hd Hs].
  pose proof (readRows_no_panic d s (Csv.pending reader) ltac:(lia) ltac:(lia)
                (Csv.FieldsPerRecord reader) ∅ 1) as Hno.
  destruct (readRows (Csv.pending reader) (Csv.FieldsPerRecord reader) d s ∅ 1)
    as [[e|acc] reader'].
  - simpl in *. intros [= ->]. by apply Hno.
  - by destruct (Z.of_nat (size acc) =? 0).
Qed.

(** X2.  An input without any record fails with the header error carrying
    the end of input, an input whose first record is malformed with the
    header error carrying the parse error and nothing else read, and the
    header error is returned for no other input. *)
Theorem header_error_cases :
  ProcessSalesCSV [] = (inl (FailedToReadHeader Csv.EOF), Csv.NewReader []) /\
  (forall e rows,
     ProcessSalesCSV (Csv.Malformed e :: rows) =
     (inl (FailedToReadHeader (Csv.ErrParse e)),
      {| Csv.FieldsPerRecord := 0; Csv.pending := rows |})) /\
  (forall file e,
     (ProcessSalesCSV file).1 = inl (FailedToReadHeader e) ->
     file = [] \/ exists pe rows, file = Csv.Malformed pe :: rows).
Proof.
  split; [reflexivity|]. split; [reflexivity|].
  intros [|[header|pe] rows] e; [by left | | by eauto].
  intros Herr. exfalso. revert Herr.
  destruct (findColumnIndices header) as [[d s] [ce|]] eqn:Hcols.
  { by rewrite (ProcessSalesCSV_unresolved _ _ _ _ _ Hcols). }
  rewrite (ProcessSalesCSV_resolved _ _ _ _ Hcols).
  apply findColumnIndices_bounds in Hcols as [Hd Hs].
  pose proof (readRows_inl d s rows ltac:(lia) ltac:(lia) (len header) ∅ 1) as Hin.
  destruct (readRows rows (len header) d s ∅ 1) as [[e'|acc] reader'].
  - destruct (Hin e' eq_refl) as (row & ce & ->). done.
  - by destruct (Z.of_nat (size acc) =? 0).
Qed.

(** The loop over rows that are all delivered. *)
Lemma readRows_complete departmentIndex salesIndex fieldsPerRecord rows :
  0 < fieldsPerRecord -> 0 <= departmentIndex -> 0 <= salesIndex ->
  Forall (readable fieldsPerRecord) rows ->
  forall departmentSales rowNumber,
  readRows rows fieldsPerRecord departmentIndex salesIndex departmentSales rowNumber
  = (inr (foldl (fun m kv => addSales m kv.1 kv.2) departmentSales
            (added departmentIndex salesIndex (recordsOf rows))),
     {| Csv.FieldsPerRecord := fieldsPerRecord; Csv.pending := [] |}).
Proof.
  intros Hpos Hd Hs Hrows.
  induction Hrows as [|raw rows Hraw _ IH]; intros m rn; [reflexivity|].
  apply readable_iff in Hraw as (record & -> & Hlen); [|done].
  rewrite readRows_readable, recordsOf_Fields, added_cons by done.
  pose proof (processRecord_no_panic departmentIndex salesIndex record Hd Hs).
  destruct (processRecord departmentIndex salesIndex record); [apply IH..|done].
Qed.

Lemma readRows_inr_readable departmentIndex salesIndex fieldsPerRecord rows :
  0 < fieldsPerRecord ->
  forall departmentSales rowNumber acc reader,
  readRows rows fieldsPerRecord departmentIndex salesIndex departmentSales rowNumber
  = (inr acc, reader) ->
  Forall (readable fieldsPerRecord) rows.
Proof.
  intros Hpos. induction rows as [|raw rows IH]; intros m rn acc reader;
    cbn [readRows]; [by constructor|].
  pose proof (checkFields_keeps fieldsPerRecord raw Hpos) as Hn.
  destruct (Csv.checkFields fieldsPerRecord raw) as [[record [e|]] n] eqn:E;
    [done|].
  simpl in Hn. subst n. intros Hrows. constructor.
  - unfold readable. by rewrite E.
  - destruct (processRecord departmentIndex salesIndex record); [| |done];
      by eapply IH.
Qed.

(** Success, both ways. *)
Lemma ProcessSalesCSV_inr_iff (file : Csv.File)
    (l : list DepartmentSummary) (reader : Csv.Reader) :
  ProcessSalesCSV file = (inr l, reader) <->
  exists header rows departmentIndex salesIndex,
    file = Csv.Fields header :: rows /\
    findColumnIndices header = (departmentIndex, salesIndex, None) /\
    Forall (fun raw => exists record,
              raw = Csv.Fields record /\ len record = len header) rows /\
    addedOf file <> [] /\
    l = summariesOf (accumulated (addedOf file)) /\
    reader = {| Csv.FieldsPerRecord := len header; Csv.pending := [] |}.
Proof.
  split.
  - intros Hret.
    destruct (ProcessSalesCSV_inr file l ltac:(by rewrite Hret))
      as (header & rows & d & s & acc & reader' & -> & Hcols & Hrows & Hne & ->).
    pose proof (findColumnIndices_bounds _ _ _ Hcols) as [Hd Hs].
    assert (Hpos : 0 < len header) by lia.
    pose proof (readRows_inr_readable _ _ _ _ Hpos _ _ _ _ Hrows) as Hread.
    rewrite (ProcessSalesCSV_resolved _ _ _ _ Hcols) in Hret.
    rewrite (readRows_complete d s (len header) rows) in Hret, Hrows by (done || lia).
    simplify_eq.
    exists header, rows, d, s. unfold addedOf, accumulated. rewrite Hcols.
    split; [done|]. split; [done|]. split.
    { eapply Forall_impl; [exact Hread|]. intros raw. by apply readable_iff. }
    split.
    { intros E. apply Hne. by rewrite E. }
    destruct (Z.of_nat (size _) =? 0); [done|]. by simplify_eq.
  - intros (header & rows & d & s & -> & Hcols & Hrows & Hne & -> & ->).
    pose proof (findColumnIndices_bounds _ _ _ Hcols) as [Hd Hs].
    rewrite (ProcessSalesCSV_resolved _ _ _ _ Hcols).
    rewrite (readRows_complete d s (len header) rows); try lia.
    + unfold addedOf, accumulated in *. rewrite Hcols in *.
      destruct (Z.eqb_spec
        (Z.of_nat (size (foldl (fun m kv => addSales m kv.1 kv.2) ∅
                           (added d s (recordsOf rows))))) 0) as [E|E];
        [|reflexivity].
      exfalso. apply (foldl_addSales_nonempty (added d s (recordsOf rows)) ∅);
        [by right|].
      apply map_size_empty_iff. lia.
    + eapply Forall_impl; [exact Hrows|]. intros raw. apply readable_iff. lia.
Qed.

(** X3.  A call returns summaries exactly when the first record is
    well-formed and resolves both columns, every data row is well-formed with
    as many fields as the header, and at least one row is not skipped.  The
    summaries are then those of the accumulator that the rows not skipped
    build, and the reader has reached the end of the input. *)
Theorem ProcessSalesCSV_succeeds_iff (file : Csv.File)
    (l : list DepartmentSummary) (reader : Csv.Reader) :
  ProcessSalesCSV file = (inr l, reader) <->
  exists header rows departmentIndex salesIndex,
    file = Csv.Fields header :: rows /\
    findColumnIndices header = (departmentIndex, salesIndex, None) /\
    Forall (fun raw => exists record,
              raw = Csv.Fields record /\ len record = len header) rows /\
    addedOf file <> [] /\
    l = summariesOf (accumulated (addedOf file)) /\
    reader = {| Csv.FieldsPerRecord := len header; Csv.pending := [] |}.
Proof. apply ProcessSalesCSV_inr_iff. Qed.

End WholePass.

(** ** The totals, group by group *)

Section GroupTotals.

Context {strings : GoStrings}.

Lemma groupSum_notin d (adds : list (string * Z)) :
  d ∉ adds.*1 -> groupSum d adds = 0.
Proof.
  induction adds as [|[k v] adds IH]; csimpl; [done|].
  intros Hd. apply not_elem_of_cons in Hd as [Hk Hd].
  destruct (String.eqb_spec k d); [congruence|]. rewrite IH by done. lia.
Qed.

Lemma groupSum_perm d (adds adds' : list (string * Z)) :
  adds ≡ₚ adds' -> groupSum d adds = groupSum d adds'.
Proof.
  induction 1 as [|[k v] l l' _ IH|[k v] [k' v'] l|l l' l'' _ IH1 _ IH2];
    simpl; lia.
Qed.

Lemma foldl_addSales_lookup_notin (adds : list (string * Z)) :
  forall (m : gmap string Z) d,
  d ∉ adds.*1 ->
  foldl (fun m kv => addSales m kv.1 kv.2) m adds !! d = m !! d.
Proof.
  induction adds as [|[k v] adds IH]; intros m d; csimpl; [done|].
  intros Hd. apply not_elem_of_cons in Hd as [Hk Hd].
  rewrite IH by done. by apply addSales_lookup_ne.
Qed.

Lemma foldl_addSales_lookup_in (adds : list (string * Z)) :
  forall (m : gmap string Z) d,
  d ∈ adds.*1 ->
  foldl (fun m kv => addSales m kv.1 kv.2) m adds !! d
  = Some (GoInt.wrap (default 0 (m !! d) + groupSum d adds)).
Proof.
  induction adds as [|[k v] adds IH]; intros m d; csimpl.
  { intros Hd. by apply elem_of_nil in Hd. }
  intros Hd. destruct (String.eqb_spec k d) as [->|Hk].
  - destruct (decide (d ∈ adds.*1)) as [Hin|Hout].
    + rewrite IH, addSales_lookup by done. simpl. unfold GoInt.add.
      rewrite wrap_add_l. do 2 f_equal. lia.
    + rewrite foldl_addSales_lookup_notin, addSales_lookup by done.
      rewrite groupSum_notin by done. unfold GoInt.add. do 2 f_equal. lia.
  - apply elem_of_cons in Hd as [->|Hd]; [done|].
    rewrite IH, addSales_lookup_ne by done. do 2 f_equal.
Qed.

(** The accumulator holds, for each department that was added to, the [int]
    sum of what was added under it, and nothing else. *)
Lemma accumulated_lookup (adds : list (string * Z)) d t :
  accumulated adds !! d = Some t <->
  d ∈ adds.*1 /\ t = GoInt.wrap (groupSum d adds).
Proof.
  unfold accumulated. destruct (decide (d ∈ adds.*1)) as [Hin|Hout].
  - rewrite foldl_addSales_lookup_in, lookup_empty by done. simpl.
    split; [intros [= <-] | intros [_ ->]]; done.
  - rewrite foldl_addSales_lookup_notin, lookup_empty by done.
    split; [done | by intros [? _]].
Qed.

Lemma addSales_comm (m : gmap string Z) d v d' v' :
  addSales (addSales m d v) d' v' = addSales (addSales m d' v') d v.
Proof.
  apply map_eq. intros k.
  destruct (decide (k = d)) as [Hd|Hd], (decide (k = d')) as [Hd'|Hd'];
    subst.
  - rewrite !addSales_lookup. simpl. unfold GoInt.add.
    rewrite !wrap_add_l. do 2 f_equal. lia.
  - rewrite addSales_lookup_ne, !addSales_lookup, addSales_lookup_ne by done.
    done.
  - rewrite addSales_lookup, addSales_lookup_ne, addSales_lookup_ne,
      addSales_lookup by done. done.
  - by rewrite !addSales_lookup_ne.
Qed.

Lemma accumulated_perm (adds adds' : list (string * Z)) :
  adds ≡ₚ adds' -> accumulated adds = accumulated adds'.
Proof.
  unfold accumulated. generalize (∅ : gmap string Z).
  intros m Hperm. revert m.
  induction Hperm as [|[k v] l l' _ IH|[k v] [k' v'] l|l l' l'' _ IH1 _ IH2];
    intros m; simpl.
  - done.
  - apply IH.
  - by rewrite addSales_comm.
  - by rewrite IH1.
Qed.

Lemma accumulated_size (adds : list (string * Z)) :
  (size (accumulated adds) <= length adds)%nat.
Proof.
  unfold accumulated.
  assert (H : forall m : gmap string Z,
    (size (foldl (fun m kv => addSales m kv.1 kv.2) m adds)
     <= size m + length adds)%nat).
  { induction adds as [|[k v] adds IH]; intros m; simpl; [lia|].
    etrans; [apply IH|]. unfold addSales. rewrite map_size_insert.
    destruct (m !! k); simpl; lia. }
  specialize (H ∅). by rewrite map_size_empty in H.
Qed.

(** What an added row carries: a department that is not empty and a value
    in the range of [int]. *)
Lemma processRecord_Add departmentIndex salesIndex record d v :
  processRecord departmentIndex salesIndex record = Add d v ->
  d <> EmptyString /\ GoInt.inRange v.
Proof.
  unfold processRecord.
  destruct (_ || _); [done|].
  destruct (index record departmentIndex) as [cell|]; [|done].
  destruct (index record salesIndex) as [cell'|]; [|done].
  destruct (String.eqb_spec (TrimSpace cell) ""); [done|].
  destruct (Strconv.Atoi (TrimSpace cell')) as [sales [e|]] eqn:HA; [done|].
  intros [= <- <-]. split; [done|]. by apply Atoi_ok in HA as [_ ?].
Qed.

Lemma added_Forall departmentIndex salesIndex records :
  Forall (fun kv => kv.1 <> EmptyString /\ GoInt.inRange kv.2)
    (added departmentIndex salesIndex records).
Proof.
  apply Forall_forall. intros [d v] Hin. unfold added in Hin.
  apply list_elem_of_omap in Hin as (record & _ & Hrec).
  destruct (processRecord departmentIndex salesIndex record) as [|d' v'|] eqn:E;
    [done| |done].
  injection Hrec as -> ->. by eapply processRecord_Add.
Qed.

Lemma added_length departmentIndex salesIndex records :
  (length (added departmentIndex salesIndex records) <= length records)%nat.
Proof.
  induction records as [|record records IH]; [done|].
  rewrite added_cons.
  destruct (processRecord departmentIndex salesIndex record); simpl; lia.
Qed.

Lemma recordsOf_length rows : (length (recordsOf rows) <= length rows)%nat.
Proof.
  induction rows as [|[dst|e] rows IH]; [done| |]; cbn; unfold recordsOf in IH;
    simpl in *; lia.
Qed.

Lemma addedOf_resolved header rows departmentIndex salesIndex e :
  findColumnIndices header = (departmentIndex, salesIndex, e) ->
  addedOf (Csv.Fields header :: rows)
  = added departmentIndex salesIndex (recordsOf rows).
Proof. intros Hcols. unfold addedOf. by rewrite Hcols. Qed.

(** [Returns], through the characterisation of success. *)
Lemma Returns_iff (file : Csv.File) (out : list DepartmentSummary) :
  Returns file out <->
  exists header rows departmentIndex salesIndex,
    file = Csv.Fields header :: rows /\
    findColumnIndices header = (departmentIndex, salesIndex, None) /\
    Forall (fun raw => exists record,
              raw = Csv.Fields record /\ len record = len header) rows /\
    addedOf file <> [] /\
    out ≡ₚ summariesOf (accumulated (addedOf file)).
Proof.
  unfold Returns. split.
  - intros (l & Hret & Hperm).
    destruct (ProcessSalesCSV file) as [res reader] eqn:E. simpl in Hret. subst res.
    apply ProcessSalesCSV_inr_iff in E
      as (header & rows & d & s & -> & Hcols & Hrows & Hne & -> & _).
    by exists header, rows, d, s.
  - intros (header & rows & d & s & -> & Hcols & Hrows & Hne & Hperm).
    exists (summariesOf (accumulated (addedOf (Csv.Fields header :: rows)))).
    split; [|done].
    erewrite (proj2 (ProcessSalesCSV_inr_iff _ _ _)); [reflexivity|].
    by exists header, rows, d, s.
Qed.

Lemma summariesOf_elem (m : gmap string Z) d t :
  summary d t ∈ summariesOf m <-> m !! d = Some t.
Proof.
  unfold summariesOf. rewrite list_elem_of_fmap. split.
  - intros ([k v] & [= -> ->] & Hin). by apply elem_of_map_to_list in Hin.
  - intros Hm. exists (d, t). split; [done|]. by apply elem_of_map_to_list.
Qed.

Lemma Returns_elem (file : Csv.File) (out : list DepartmentSummary) :
  Returns file out ->
  forall d t,
    summary d t ∈ out <->
    d ∈ (addedOf file).*1 /\ t = GoInt.wrap (groupSum d (addedOf file)).
Proof.
  intros (header & rows & di & si & -> & _ & _ & _ & Hperm)%Returns_iff d t.
  by rewrite Hperm, summariesOf_elem, accumulated_lookup.
Qed.

(** X4.  The summaries a call returns are the groups of the rows that were
    not skipped: a department has a summary exactly when some such row has
    it as its trimmed department, and the total of the summary is the sum,
    wrapped to [int], of the parsed values of all such rows. *)
Theorem group_totals (file : Csv.File) (out : list DepartmentSummary) :
  Returns file out ->
  forall d t,
    summary d t ∈ out <->
    d ∈ (addedOf file).*1 /\ t = GoInt.wrap (groupSum d (addedOf file)).
Proof. apply Returns_elem. Qed.

(** X5.  A call never returns an empty list of summaries; no summary has the
    empty department; every total is in the range of [int]; and there are at
    most as many summaries as rows that were not skipped, so at most as many
    as data rows. *)
Theorem summaries_invariants (file : Csv.File) (out : list DepartmentSummary) :
  Returns file out ->
  out <> [] /\
  Forall (fun s => Department s <> EmptyString /\ GoInt.inRange (TotalSales s)) out /\
  (length out <= length (addedOf file))%nat /\
  (length (addedOf file) <= length file - 1)%nat.
Proof.
  intros Hret. pose proof (Returns_elem _ _ Hret) as Hgroups.
  apply Returns_iff in Hret
    as (header & rows & di & si & -> & Hcols & _ & Hne & Hperm).
  assert (Hlen : length out = size (accumulated (addedOf (Csv.Fields header :: rows)))).
  { rewrite Hperm. unfold summariesOf.
    by rewrite length_fmap, length_map_to_list. }
  split; [|split; [|split]].
  - intros ->. simpl in Hlen. symmetry in Hlen.
    apply map_size_empty_iff in Hlen. revert Hlen.
    apply foldl_addSales_nonempty. by right.
  - apply Forall_forall. intros [d t] Hin.
    apply (Hgroups d t) in Hin as [Hd ->]. split; [|apply wrap_inRange].
    apply list_elem_of_fmap in Hd as ([d' v] & -> & Hin).
    rewrite (addedOf_resolved _ _ _ _ _ Hcols) in Hin.
    pose proof (added_Forall di si (recordsOf rows)) as Hall.
    rewrite Forall_forall in Hall. by apply (Hall _ Hin).
  - rewrite Hlen. apply accumulated_size.
  - rewrite (addedOf_resolved _ _ _ _ _ Hcols). simpl.
    pose proof (added_length di si (recordsOf rows)).
    pose proof (recordsOf_length rows). lia.
Qed.

(** X6.  The order of the data rows does not matter to a call that returns
    summaries: with the data rows in any other order the call returns the
    same summaries. *)
Theorem row_order_irrelevant (header : list string) (rows rows' : Csv.File)
    (out : list DepartmentSummary) :
  rows ≡ₚ rows' ->
  Returns (Csv.Fields header :: rows) out ->
  Returns (Csv.Fields header :: rows') out.
Proof.
  intros Hrows (h & r & di & si & [= <- <-] & Hcols & Hall & Hne & Hperm)%Returns_iff.
  apply Returns_iff. exists header, rows', di, si.
  rewrite (addedOf_resolved header rows _ _ _ Hcols) in Hne, Hperm.
  rewrite (addedOf_resolved header rows' _ _ _ Hcols).
  assert (Hadded : added di si (recordsOf rows) ≡ₚ added di si (recordsOf rows')).
  { unfold added, recordsOf. by rewrite Hrows. }
  split; [done|]. split; [done|]. split.
  { rewrite Forall_forall in Hall. apply Forall_forall. intros raw Hraw.
    apply Hall. by rewrite Hrows. }
  split.
  - intros E. rewrite E in Hadded. apply Hne. by apply Permutation_nil_r.
  - by rewrite <- (accumulated_perm _ _ Hadded).
Qed.

(** X7.  A row that has as many fields as the header and that the row
    policy skips has no effect on what a call returns: with the row taken
    out the call returns the same summaries, and the other way round. *)
Theorem skipped_row_irrelevant (header : list string) (pre post : Csv.File)
    (record : list string) (departmentIndex salesIndex : Z)
    (out : list DepartmentSummary) :
  findColumnIndices header = (departmentIndex, salesIndex, None) ->
  len record = len header ->
  (exists why, processRecord departmentIndex salesIndex record = Skip why) ->
  Returns (Csv.Fields header :: pre ++ Csv.Fields record :: post) out <->
  Returns (Csv.Fields header :: pre ++ post) out.
Proof.
  intros Hcols Hlen [why Hskip].
  assert (Hadded :
    addedOf (Csv.Fields header :: pre ++ Csv.Fields record :: post)
    = addedOf (Csv.Fields header :: pre ++ post)).
  { rewrite !(addedOf_resolved _ _ _ _ _ Hcols). unfold added, recordsOf.
    rewrite !omap_app. f_equal.
    change (omap _ (Csv.Fields record :: post))
      with (recordsOf (Csv.Fields record :: post)).
    rewrite recordsOf_Fields.
    change (omap ?f (record :: recordsOf post))
      with (added departmentIndex salesIndex (record :: recordsOf post)).
    by rewrite added_cons, Hskip. }
  rewrite !Returns_iff. split.
  - intros (h & r & di & si & [= <- <-] & Hcols' & Hall & Hne & Hperm).
    exists header, (pre ++ post), di, si. rewrite <- Hadded.
    split; [done|]. split; [done|]. split; [|done].
    apply Forall_app in Hall as [Hpre Hpost].
    apply Forall_cons in Hpost as [_ Hpost]. by apply Forall_app.
  - intros (h & r & di & si & [= <- <-] & Hcols' & Hall & Hne & Hperm).
    exists header, (pre ++ Csv.Fields record :: post), di, si. rewrite Hadded.
    split; [done|]. split; [done|]. split; [|done].
    apply Forall_app in Hall as [Hpre Hpost].
    apply Forall_app. split; [done|]. apply Forall_cons. split; [|done].
    by exists record.
Qed.

End GroupTotals.

(** ** More on the header scan *)

Section MoreOnHeaders.

Context {strings : GoStrings}.


Lemma firstIndex_Exists p header i :
  firstIndex p header = Some i ->
  Exists (fun col => p (normalize col) = true) header.
Proof.
  intros [(col & Hcol & Hp) _]%firstIndex_leftmost.
  apply Exists_exists. exists col. split; [|done].
  by eapply list_elem_of_lookup_2.
Qed.

(** X8.  The header scan succeeds exactly on the headers that have a
    department cell and a sales cell.  When it succeeds, both indices are
    positions of the header and the cells there match their roles; when it
    fails, both indices are -1. *)
Theorem findColumnIndices_success_iff (header : list string) :
  ((exists d s, findColumnIndices header = (d, s, None)) <->
   Exists (fun col => isDepartmentColumn (ToLower (TrimSpace col)) = true) header /\
   Exists (fun col => isSalesColumn (ToLower (TrimSpace col)) = true) header) /\
  (forall d s, findColumnIndices header = (d, s, None) ->
     (exists col, index header d = Some col /\
                  isDepartmentColumn (ToLower (TrimSpace col)) = true) /\
     (exists col, index header s = Some col /\
                  isSalesColumn (ToLower (TrimSpace col)) = true)) /\
  (forall d s e, findColumnIndices header = (d, s, Some e) -> d = -1 /\ s = -1).
Proof.
  split; [|split].
  - split.
    + intros (d & s & Hcols). rewrite findColumnIndices_spec in Hcols.
      destruct (firstIndex isDepartmentColumn header) as [i|] eqn:Hd; [|done].
      destruct (firstIndex isSalesColumn header) as [j|] eqn:Hs; [|done].
      split; by eapply firstIndex_Exists.
    + intros [[i Hd]%firstIndex_Some_Exists [j Hs]%firstIndex_Some_Exists].
      exists (Z.of_nat i), (Z.of_nat j).
      by rewrite findColumnIndices_spec, Hd, Hs.
  - intros d s (i & j & -> & -> & [(c & Hc & Hd) _] & [(c' & Hc' & Hs) _])%findColumnIndices_ok.
    unfold index. split.
    + exists c. destruct (Z.ltb_spec (Z.of_nat i) 0); [lia|].
      by rewrite Nat2Z.id.
    + exists c'. destruct (Z.ltb_spec (Z.of_nat j) 0); [lia|].
      by rewrite Nat2Z.id.
  - intros d s e. rewrite findColumnIndices_spec.
    destruct (firstIndex isDepartmentColumn header); [|by intros [= <- <- _]].
    destruct (firstIndex isSalesColumn header); [done|]. by intros [= <- <- _].
Qed.


End MoreOnHeaders.

(** ** Written totals read back *)

(** X10.  A total in the range of [int], written the way [SaveResultFile]
    writes it, is read back as the same number by the parser that
    [ProcessSalesCSV] applies to the sales cell. *)
Theorem Atoi_fmtInteger (total : Z) :
  GoInt.inRange total -> Strconv.Atoi (fmtInteger total) = (total, None).
Proof.
  intros Hr. apply Atoi_ok. split; [|done]. by apply fmtInteger_decimal.
Qed.

(** ** File names *)

Lemma bytesOf_app s t : bytesOf (s +:+ t) = bytesOf s ++ bytesOf t.
Proof.
  unfold bytesOf. induction s as [|c s IH]; [done|].
  rewrite str_app_cons. simpl. by rewrite IH.
Qed.

Lemma string_of_bytesOf s : string_of_list_ascii (bytesOf s) = s.
Proof. apply string_of_list_ascii_of_string. Qed.

Lemma bytesOf_string l : bytesOf (string_of_list_ascii l) = l.
Proof. apply list_ascii_of_string_of_list_ascii. Qed.

Lemma string_of_list_app l k :
  string_of_list_ascii (l ++ k) = string_of_list_ascii l +:+ string_of_list_ascii k.
Proof. induction l as [|c l IH]; [done|]. simpl. by rewrite IH. Qed.

Lemma extLoop_names xs : forall r suffix,
  Forall nameByte xs ->
  Filepath.extLoop (xs ++ r) suffix = Filepath.extLoop r (rev xs ++ suffix).
Proof.
  induction xs as [|c xs IH]; intros r suffix Hxs; [done|].
  apply Forall_cons in Hxs as [[Hsep Hdot] Hxs]. simpl.
  rewrite Hsep, Hdot, IH by done. by rewrite <- app_assoc.
Qed.

(** Where the loop of [Ext] stops. *)
Lemma extLoop_shape r : forall suffix,
  (Filepath.extLoop r suffix = [] /\
   forall xs r', r = xs ++ "."%char :: r' -> ~ Forall nameByte xs) \/
  exists xs r', r = xs ++ "."%char :: r' /\ Forall nameByte xs /\
    Filepath.extLoop r suffix = "."%char :: rev xs ++ suffix.
Proof.
  induction r as [|c r IH]; intros suffix; simpl.
  - left. split; [done|]. intros xs r' E. by destruct xs.
  - destruct (Filepath.isPathSeparator c) eqn:Hsep.
    { left. split; [done|]. intros [|x xs] r' [= -> E] Hxs.
      - discriminate.
      - apply Forall_cons in Hxs as [[Hx _] _]. congruence. }
    destruct (Ascii.eqb_spec c ".") as [->|Hdot].
    { right. exists [], r. by repeat split. }
    destruct (IH (c :: suffix)) as [[Hnil Hno]|(xs & r' & -> & Hxs & Hloop)].
    + left. split; [done|]. intros [|x xs] r' [= -> E] Hxs; [done|].
      apply Forall_cons in Hxs as [_ Hxs]. by eapply Hno.
    + right. exists (c :: xs), r'. split; [done|]. split.
      * apply Forall_cons. split; [|done]. split; [done|].
        by apply Ascii.eqb_neq.
      * rewrite Hloop. simpl. by rewrite <- app_assoc.
Qed.

(** [Ext] of a path that ends in a dot followed by bytes other than
    the dot and the slash is that dot and those bytes; and whatever the path,
    [Ext] is either empty or of this kind, a suffix of the path that starts at
    its last dot, with no slash after it. *)
Lemma Ext_last_dot :
  (forall stem e, Forall nameByte (bytesOf e) ->
     Filepath.Ext (stem +:+ "." +:+ e) = "." +:+ e) /\
  (forall path,
     Filepath.Ext path = EmptyString \/
     exists stem e, path = stem +:+ "." +:+ e /\ Forall nameByte (bytesOf e) /\
       Filepath.Ext path = "." +:+ e).
Proof.
  split.
  - intros stem e He. unfold Filepath.Ext. fold (bytesOf (stem +:+ "." +:+ e)).
    rewrite !bytesOf_app, !rev_app_distr. simpl.
    rewrite <- app_assoc, extLoop_names by (by apply Forall_rev).
    simpl. rewrite rev_involutive, app_nil_r. simpl. by rewrite string_of_bytesOf.
  - intros path. unfold Filepath.Ext. fold (bytesOf path).
    destruct (extLoop_shape (rev (bytesOf path)) [])
      as [[-> _]|(xs & r' & E & Hxs & ->)]; [by left|].
    right. exists (string_of_list_ascii (rev r')), (string_of_list_ascii (rev xs)).
    rewrite bytesOf_string, app_nil_r. split; [|split].
    + rewrite <- (string_of_bytesOf path), <- (rev_involutive (bytesOf path)), E.
      rewrite rev_app_distr. simpl. rewrite <- app_assoc.
      by rewrite !string_of_list_app.
    + by apply Forall_rev.
    + done.
Qed.

Lemma stripSeparators_plain c r :
  Filepath.isPathSeparator c = false ->
  Filepath.stripSeparators (c :: r) = c :: r.
Proof. intros Hc. simpl. by rewrite Hc. Qed.

Lemma lastElement_plain xs : forall r suffix,
  Forall plainByte xs ->
  Filepath.lastElement (xs ++ r) suffix = Filepath.lastElement r (rev xs ++ suffix).
Proof.
  induction xs as [|c xs IH]; intros r suffix Hxs; [done|].
  apply Forall_cons in Hxs as [Hsep Hxs]. simpl.
  rewrite Hsep, IH by done. by rewrite <- app_assoc.
Qed.

Lemma lastElement_shape r : forall suffix,
  Forall plainByte suffix -> Forall plainByte (Filepath.lastElement r suffix).
Proof.
  induction r as [|c r IH]; intros suffix Hs; simpl; [done|].
  destruct (Filepath.isPathSeparator c) eqn:Hc; [done|].
  apply IH. by apply Forall_cons.
Qed.

Lemma Base_name (prefix name : string) :
  name <> EmptyString -> Forall plainByte (bytesOf name) ->
  (prefix = EmptyString \/ exists dir, prefix = dir +:+ "/") ->
  Filepath.Base (prefix +:+ name) = name.
Proof.
  intros Hne Hname Hprefix.
  assert (Hpath : prefix +:+ name <> EmptyString).
  { destruct prefix; [done|]. by rewrite str_app_cons. }
  unfold Filepath.Base. destruct (prefix +:+ name) as [|c0 path0] eqn:E; [done|].
  rewrite <- E. fold (bytesOf (prefix +:+ name)).
  rewrite bytesOf_app, rev_app_distr.
  assert (Hrev : exists c xs, rev (bytesOf name) = c :: xs /\ plainByte c).
  { destruct (rev (bytesOf name)) as [|c xs] eqn:Er.
    - apply (f_equal (@rev ascii)) in Er. rewrite rev_involutive in Er.
      exfalso. apply Hne. by rewrite <- (string_of_bytesOf name), Er.
    - exists c, xs. split; [done|].
      assert (Hall : Forall plainByte (c :: xs)) by (rewrite <- Er; by apply Forall_rev).
      by apply Forall_cons in Hall as [? _]. }
  destruct Hrev as (c & xs & Er & Hc).
  assert (Hstrip : Filepath.stripSeparators (rev (bytesOf name) ++ rev (bytesOf prefix))
                   = rev (bytesOf name) ++ rev (bytesOf prefix)).
  { rewrite Er. simpl. by rewrite Hc. }
  rewrite Hstrip, lastElement_plain by (by apply Forall_rev).
  rewrite rev_involutive, app_nil_r.
  assert (Hlast : Filepath.lastElement (rev (bytesOf prefix)) (bytesOf name)
                  = bytesOf name).
  { destruct Hprefix as [->|[dir ->]]; [done|].
    rewrite bytesOf_app, rev_app_distr. done. }
  rewrite Hlast. destruct (bytesOf name) as [|b bs] eqn:Eb.
  - exfalso. apply Hne. by rewrite <- (string_of_bytesOf name), Eb.
  - by rewrite <- Eb, string_of_bytesOf.
Qed.

(** X14.  The download location of a file keeps only its name: for a name
    that is not empty and has no slash, stored in any directory or given
    alone, it is [/public/uploads/] followed by the name.  So the result file
    named after an identifier without a slash is offered at
    [/public/uploads/result_<identifier>.csv]. *)
Theorem GetDownloadURL_name (dir name uniqueID : string) :
  name <> EmptyString -> Forall plainByte (bytesOf name) ->
  Forall plainByte (bytesOf uniqueID) ->
  GetDownloadURL (dir +:+ "/" +:+ name) = "/public/uploads/" +:+ name /\
  GetDownloadURL name = "/public/uploads/" +:+ name /\
  GetDownloadURL (dir +:+ "/" +:+ resultFilename uniqueID)
  = "/public/uploads/result_" +:+ uniqueID +:+ ".csv".
Proof.
  intros Hne Hname Hid. unfold GetDownloadURL. split; [|split].
  - rewrite <- str_app_assoc, Base_name; by eauto.
  - rewrite <- (Base_name "" name) at 2; by eauto.
  - rewrite <- str_app_assoc, Base_name; try by eauto.
    unfold resultFilename. rewrite !bytesOf_app.
    repeat apply Forall_app_2; try done; by repeat constructor.
Qed.

(** X15.  Whatever the path, the download location is [/public/uploads/]
    followed by a name that is not empty and that has no slash in it, unless
    it is the slash alone; for the empty path the name is the dot. *)
Theorem GetDownloadURL_shape (filePath : string) :
  exists filename,
    GetDownloadURL filePath = "/public/uploads/" +:+ filename /\
    filename <> EmptyString /\
    (filename = "/" \/ Forall plainByte (bytesOf filename)) /\
    (filePath = EmptyString -> filename = ".").
Proof.
  exists (Filepath.Base filePath). split; [done|].
  unfold Filepath.Base. destruct filePath as [|c path]; [by repeat split; eauto; right; repeat constructor|].
  pose proof (lastElement_shape
    (Filepath.stripSeparators (rev (list_ascii_of_string (String c path)))) []
    ltac:(constructor)) as Hshape.
  destruct (Filepath.lastElement _ []) as [|b bs]; [by repeat split; eauto|].
  split; [done|]. split; [|done]. right. by rewrite bytesOf_string.
Qed.

(** ** Validation and the handler *)

Section ValidationFacts.

Context {strings : GoStrings}.

Lemma ValidateFile_accepts (file : FileHeader) :
  (ValidateFile file).1 = None <->
  ToLower (Filepath.Ext (Filename file)) = ".csv"%string.
Proof.
  unfold ValidateFile.
  destruct (String.eqb_spec (ToLower (Filepath.Ext (Filename file))) ".csv")
    as [E|E]; simpl; split; done.
Qed.

(** X16.  Whether [ValidateFile] accepts a file is decided by its name
    alone, through the lower-cased extension: two files of the same name get
    the same answer whatever their sizes and content types; a name that ends
    in a dot and bytes other than the dot and the slash is accepted exactly
    when that ending lower-cases to [.csv]; a rejected file is rejected with
    its lower-cased extension and without the warning about the MIME type. *)
Theorem ValidateFile_name_only (file : FileHeader) :
  (forall file', Filename file' = Filename file ->
     (ValidateFile file').1 = (ValidateFile file).1) /\
  (forall stem e, Filename file = stem +:+ "." +:+ e ->
     Forall nameByte (bytesOf e) ->
     ((ValidateFile file).1 = None <-> ToLower ("." +:+ e) = ".csv"%string)) /\
  ((ValidateFile file).1 <> None ->
   ValidateFile file
   = (Some (OnlyCSVAllowed (ToLower (Filepath.Ext (Filename file)))), false)).
Proof.
  split; [|split].
  - intros file' Hname. unfold ValidateFile. rewrite Hname.
    by destruct (String.eqb _ ".csv").
  - intros stem e Hname He. rewrite ValidateFile_accepts, Hname.
    by rewrite (proj1 Ext_last_dot stem e He).
  - unfold ValidateFile.
    by destruct (String.eqb (ToLower (Filepath.Ext (Filename file))) ".csv").
Qed.

(** X17.  The name [SaveUploadedFile] stores an upload under has the
    extension of the uploaded name when that has one, whatever the
    identifier, so [ValidateFile] gives the stored name the answer it gave the
    upload; and the name [SaveResultFile] writes to has the extension [.csv]. *)
Theorem stored_names_keep_extension (uniqueID filename : string) :
  Filepath.Ext filename <> EmptyString ->
  Filepath.Ext (uploadFilename uniqueID filename) = Filepath.Ext filename /\
  (forall size contentType size' contentType',
     (ValidateFile {| Filename := uploadFilename uniqueID filename;
                      Size := size'; ContentType := contentType' |}).1
     = (ValidateFile {| Filename := filename;
                        Size := size; ContentType := contentType |}).1) /\
  Filepath.Ext (resultFilename uniqueID) = ".csv"%string.
Proof.
  intros Hext.
  destruct (proj2 Ext_last_dot filename) as [E|(stem & e & Hname & He & E)];
    [done|].
  assert (Hup : Filepath.Ext (uploadFilename uniqueID filename)
                = Filepath.Ext filename).
  { unfold uploadFilename. rewrite E, <- str_app_assoc.
    by apply (proj1 Ext_last_dot). }
  split; [exact Hup|]. split.
  - intros size ct size' ct'. unfold ValidateFile. simpl. rewrite Hup.
    by destruct (String.eqb _ ".csv").
  - unfold resultFilename. rewrite <- str_app_assoc.
    apply (proj1 Ext_last_dot ("result_" +:+ uniqueID) "csv").
    by repeat constructor.
Qed.

Lemma totalSales_fold (l : list DepartmentSummary) : forall a,
  GoInt.inRange a ->
  fold_left (fun totalSales summary => GoInt.add totalSales (TotalSales summary)) l a
  = GoInt.wrap (a + sumTotals l).
Proof.
  unfold sumTotals, sumZ.
  induction l as [|s l IH]; intros a Ha; csimpl.
  - rewrite Z.add_0_r. symmetry. by apply wrap_id.
  - rewrite IH by apply wrap_inRange. unfold GoInt.add.
    rewrite wrap_add_l. f_equal. lia.
Qed.

Lemma sumTotals_wrap_parsed (file : Csv.File) (l : list DepartmentSummary) :
  (ProcessSalesCSV file).1 = inr l ->
  l <> [] /\
  GoInt.wrap (sumTotals l) = GoInt.wrap (sumZ (parsedValues file)).
Proof.
  intros (header & rows & d & s & acc & reader & -> & Hcols & Hrows & Hne & ->)%ProcessSalesCSV_inr.
  split.
  - unfold summariesOf. intros E%fmap_nil_inv. by apply map_to_list_empty_iff in E.
  - apply readRows_inr in Hrows. unfold parsedValues. rewrite Hcols.
    by rewrite sumTotals_summariesOf, Hrows, total_foldl_wrap, total_empty.
Qed.

(** X18.  When [UploadCSV] answers with status 200, the file came with the
    request and passed validation, both files were saved and the pass over the
    stored upload returned summaries.  The response then counts at least one
    department, as many as there are summaries, and its total is the [int]
    sum of their totals, which is the sum of the parsed values of the rows
    not skipped modulo 2^64; its download location is that of the result
    file. *)
Theorem UploadCSV_ok (request : Request) (response : Models.UploadResponse) :
  UploadCSV request = inr response ->
  exists file filePath csv summaries resultFilePath,
    formFile request = Some file /\
    (ValidateFile file).1 = None /\
    uploadedPath request = Some filePath /\
    openFile request filePath = Some csv /\
    (ProcessSalesCSV csv).1 = inr summaries /\
    resultPath request = Some resultFilePath /\
    Models.Success response = true /\
    Models.DownloadURL response = GetDownloadURL resultFilePath /\
    Models.TotalDepartments response = len summaries /\
    1 <= Models.TotalDepartments response /\
    Models.TotalSales response = GoInt.wrap (sumTotals summaries) /\
    GoInt.wrap (Models.TotalSales response) = GoInt.wrap (sumZ (parsedValues csv)).
Proof.
  unfold UploadCSV, ProcessSalesCSVAt.
  destruct (formFile request) as [file|] eqn:Hform; [|done].
  destruct (ValidateFile file) as [[e|] warned] eqn:Hvalid; [done|].
  destruct (uploadedPath request) as [filePath|] eqn:Hupload; [|done].
  destruct (openFile request filePath) as [csv|] eqn:Hopen; [|done].
  destruct (ProcessSalesCSV csv).1 as [e|summaries] eqn:Hpass; [done|].
  destruct (resultPath request) as [resultFilePath|] eqn:Hresult; [|done].
  intros [= <-]. exists file, filePath, csv, summaries, resultFilePath. simpl.
  destruct (sumTotals_wrap_parsed _ _ Hpass) as [Hne Hsum].
  rewrite totalSales_fold, Z.add_0_l
    by (unfold GoInt.inRange, GoInt.minInt, GoInt.maxInt; lia).
  split; [done|]. split; [by rewrite Hvalid|]. do 7 (split; [done|]). split.
  { unfold len. destruct summaries; [done|]. cbn [length]. lia. }
  split; [done|]. rewrite <- Hsum. apply wrap_id, wrap_inRange.
Qed.

(** X19.  Every failure of [UploadCSV] is answered with status 400 or 500,
    and with 400 exactly when no file came with the request or the lower-cased
    extension of its name is not [.csv]: the content type and the size of the
    upload never cause a rejection. *)
Theorem UploadCSV_status (request : Request) (failure : UploadFailure) :
  UploadCSV request = inl failure ->
  (statusOf failure = 400 \/ statusOf failure = 500) /\
  (statusOf failure = 400 <->
   formFile request = None \/
   exists file, formFile request = Some file /\
     ToLower (Filepath.Ext (Filename file)) <> ".csv"%string).
Proof.
  unfold UploadCSV.
  destruct (formFile request) as [file|].
  2:{ intros [= <-]. simpl. split; [by left|]. split; [by left | done]. }
  pose proof (ValidateFile_accepts file) as Hacc.
  destruct (ValidateFile file) as [[e|] warned].
  { intros [= <-]. simpl. split; [by left|]. split; [|done].
    intros _. right. exists file. split; [done|]. intros E.
    by apply Hacc in E. }
  assert (Hcsv : ToLower (Filepath.Ext (Filename file)) = ".csv"%string)
    by (by apply Hacc).
  intros Hfail.
  assert (Hstatus : statusOf failure = 500).
  { destruct (uploadedPath request); [|by injection Hfail as <-].
    destruct (ProcessSalesCSVAt request _); [by injection Hfail as <-|].
    destruct (resultPath request); [done | by injection Hfail as <-]. }
  split; [by right|]. rewrite Hstatus. split; [done|].
  intros [?|(file' & [= <-] & Hext)]; done.
Qed.

End ValidationFacts.

(** ** What the errors of a call mean *)

Section ErrorMeaning.

Context {strings : GoStrings}.

Lemma readRows_inl_split departmentIndex salesIndex fieldsPerRecord rows :
  0 < fieldsPerRecord -> 0 <= departmentIndex -> 0 <= salesIndex ->
  forall departmentSales rowNumber n e,
  (readRows rows fieldsPerRecord departmentIndex salesIndex
     departmentSales rowNumber).1 = inl (FailedToReadRecord n e) ->
  exists good bad rest,
    rows = good ++ bad :: rest /\
    Forall (readable fieldsPerRecord) good /\
    (Csv.checkFields fieldsPerRecord bad).1.2 = Some e /\
    n = rowNumber + len good + 1.
Proof.
  intros Hpos Hd Hs. induction rows as [|raw rows IH]; intros m rn n e;
    cbn [readRows]; [done|].
  pose proof (checkFields_keeps fieldsPerRecord raw Hpos) as Hn.
  destruct (Csv.checkFields fieldsPerRecord raw) as [[record [ce|]] n'] eqn:E;
    simpl in Hn; subst n'.
  - intros [= <- <-]. exists [], raw, rows. rewrite E. repeat split; try done.
    unfold len. simpl. lia.
  - pose proof (processRecord_no_panic departmentIndex salesIndex record Hd Hs).
    assert (Hraw : readable fieldsPerRecord raw) by (unfold readable; by rewrite E).
    destruct (processRecord departmentIndex salesIndex record); [| |done];
      intros (good & bad & rest & -> & Hgood & Hbad & ->)%IH;
      exists (raw :: good), bad, rest; repeat split; try done;
      try (by constructor); unfold len; cbn [length]; lia.
Qed.

(** X11.  After a header that resolves, the call returns the read error
    with row number [n] exactly when data row [n - 1] is the first one the
    reader fails to deliver, and the error it carries is the reader's. *)
Theorem read_error_iff (header : list string) (rows : Csv.File)
    (departmentIndex salesIndex n : Z) (e : Csv.Error) :
  findColumnIndices header = (departmentIndex, salesIndex, None) ->
  (ProcessSalesCSV (Csv.Fields header :: rows)).1 = inl (FailedToReadRecord n e) <->
  exists good bad rest,
    rows = good ++ bad :: rest /\
    Forall (readable (len header)) good /\
    (Csv.checkFields (len header) bad).1.2 = Some e /\
    n = len good + 2.
Proof.
  intros Hcols. pose proof (findColumnIndices_bounds _ _ _ Hcols) as [Hd Hs].
  assert (Hpos : 0 < len header) by lia.
  rewrite (ProcessSalesCSV_resolved _ _ _ _ Hcols). split.
  - intros Herr.
    destruct (readRows rows (len header) departmentIndex salesIndex ∅ 1)
      as [[e'|acc] reader] eqn:Hrows.
    + simpl in Herr. injection Herr as ->.
      destruct (readRows_inl_split departmentIndex salesIndex (len header) rows
                  Hpos ltac:(lia) ltac:(lia) ∅ 1 n e)
        as (good & bad & rest & -> & Hgood & Hbad & ->); [by rewrite Hrows|].
      exists good, bad, rest. repeat split; try done. lia.
    + by destruct (Z.of_nat (size acc) =? 0).
  - intros (good & bad & rest & -> & Hgood & Hbad & ->).
    pose proof (checkFields_keeps (len header) bad Hpos) as Hn.
    destruct (Csv.checkFields (len header) bad) as [[x oe] n'] eqn:E.
    simpl in Hn, Hbad. subst n' oe.
    rewrite (readRows_first_failure _ _ _ good _ rest x e); try done; try lia.
    simpl. do 2 f_equal. lia.
Qed.

(** X12.  The empty-result error is returned exactly for the files whose
    header resolves, whose data rows all have the header's number of fields,
    and none of whose rows is added: only a pass that read every row and
    skipped each of them ends with it. *)
Theorem empty_result_iff (file : Csv.File) :
  (ProcessSalesCSV file).1 = inl NoValidDataRows <->
  exists header rows departmentIndex salesIndex,
    file = Csv.Fields header :: rows /\
    findColumnIndices header = (departmentIndex, salesIndex, None) /\
    Forall (fun raw => exists record,
              raw = Csv.Fields record /\ len record = len header) rows /\
    addedOf file = [].
Proof.
  split.
  - destruct file as [|[header|pe] rows]; [done| |done].
    destruct (findColumnIndices header) as [[d s] [ce|]] eqn:Hcols.
    { by rewrite (ProcessSalesCSV_unresolved _ _ _ _ _ Hcols). }
    rewrite (ProcessSalesCSV_resolved _ _ _ _ Hcols).
    pose proof (findColumnIndices_bounds _ _ _ Hcols) as [Hd Hs].
    assert (Hpos : 0 < len header) by lia.
    pose proof (readRows_inl d s rows ltac:(lia) ltac:(lia) (len header) ∅ 1) as Hin.
    destruct (readRows rows (len header) d s ∅ 1) as [[e'|acc] reader] eqn:Hrows.
    { intros [= ->]. by destruct (Hin _ eq_refl) as (? & ? & ?). }
    destruct (Z.eqb_spec (Z.of_nat (size acc)) 0) as [Hsize|]; [|done].
    intros _. exists header, rows, d, s. split; [done|]. split; [done|]. split.
    + eapply Forall_impl; [by eapply readRows_inr_readable|].
      intros raw. by apply readable_iff.
    + rewrite (addedOf_resolved _ _ _ _ _ Hcols).
      apply (readRows_empty_iff _ _ _ _ _ _ _ Hrows).
      apply map_size_empty_iff. lia.
  - intros (header & rows & d & s & -> & Hcols & Hrows & Hnone).
    pose proof (findColumnIndices_bounds _ _ _ Hcols) as [Hd Hs].
    rewrite (addedOf_resolved _ _ _ _ _ Hcols) in Hnone.
    rewrite (ProcessSalesCSV_resolved _ _ _ _ Hcols).
    rewrite (readRows_complete d s (len header) rows), Hnone; try lia.
    + reflexivity.
    + eapply Forall_impl; [exact Hrows|]. intros raw. apply readable_iff. lia.
Qed.

(** X13.  A pass never removes an entry of the accumulator, never makes it
    smaller, and leaves the entry of every department that no added row
    names as it found it. *)
Theorem accumulator_grows (rows : Csv.File)
    (fieldsPerRecord departmentIndex salesIndex rowNumber : Z)
    (departmentSales acc : gmap string Z) (reader : Csv.Reader) :
  readRows rows fieldsPerRecord departmentIndex salesIndex departmentSales rowNumber
    = (inr acc, reader) ->
  (forall d, is_Some (departmentSales !! d) -> is_Some (acc !! d)) /\
  (forall d, d ∉ (added departmentIndex salesIndex (recordsOf rows)).*1 ->
     acc !! d = departmentSales !! d) /\
  (size departmentSales <= size acc)%nat.
Proof.
  intros ->%readRows_inr.
  assert (Hkeep : forall d, is_Some (departmentSales !! d) ->
    is_Some (foldl (fun m kv => addSales m kv.1 kv.2) departmentSales
               (added departmentIndex salesIndex (recordsOf rows)) !! d)).
  { intros d Hd.
    destruct (decide (d ∈ (added departmentIndex salesIndex (recordsOf rows)).*1)).
    - by rewrite foldl_addSales_lookup_in.
    - by rewrite foldl_addSales_lookup_notin. }
  split; [exact Hkeep|]. split.
  - intros d Hd. by apply foldl_addSales_lookup_notin.
  - clear Hkeep. revert departmentSales.
    induction (added departmentIndex salesIndex (recordsOf rows))
      as [|[k v] adds IH]; intros m; simpl; [done|].
    etrans; [|apply IH]. unfold addSales. rewrite map_size_insert.
    destruct (m !! k); simpl; lia.
Qed.

End ErrorMeaning.

(** ** The lines of the result file *)

Lemma countByte_app c s t :
  countByte c (s +:+ t) = (countByte c s + countByte c t)%nat.
Proof.
  induction s as [|b s IH]; [done|]. rewrite str_app_cons. simpl.
  rewrite IH. lia.
Qed.

Lemma digitChar_not_lineFeed d :
  0 <= d <= 9 -> Ascii.eqb (digitChar d) lineFeed = false.
Proof.
  intros Hd. apply Ascii.eqb_neq. intros E.
  pose proof (byte_digitChar d Hd) as Hb. rewrite E in Hb.
  change (byte lineFeed) with 10 in Hb. lia.
Qed.

Lemma fmtDigits_no_lineFeed room : forall u buf,
  0 <= u ->
  countByte lineFeed (fmtDigits room u buf) = countByte lineFeed buf.
Proof.
  induction room as [|room IH]; intros u buf Hu; cbn [fmtDigits]; [done|].
  destruct (Z.geb_spec u 10) as [Hge|Hlt].
  - rewrite IH by (apply Z.div_pos; lia). cbn [countByte].
    rewrite digitChar_not_lineFeed; [done|].
    pose proof (Z.div_mod u 10). pose proof (Z.mod_pos_bound u 10). lia.
  - cbn [countByte]. by rewrite digitChar_not_lineFeed by lia.
Qed.

Lemma fmtInteger_no_lineFeed n : countByte lineFeed (fmtInteger n) = O.
Proof.
  unfold fmtInteger. destruct (Z.ltb_spec n 0).
  - cbn [countByte]. change (Ascii.eqb "-" lineFeed) with false.
    rewrite fmtDigits_no_lineFeed; [done|].
    unfold GoInt.toUint64. apply Z.mod_pos_bound. lia.
  - by rewrite fmtDigits_no_lineFeed.
Qed.

(** X20.  The result file has one line feed for the header line, one for
    each summary, and those that the department names contain themselves: the
    writer adds exactly one line per summary and never one inside a total. *)
Theorem SaveResultFile_lines (departmentSummaries : list DepartmentSummary) :
  countByte lineFeed (SaveResultFile departmentSummaries)
  = (1 + length departmentSummaries + lineFeedsIn departmentSummaries)%nat.
Proof.
  unfold SaveResultFile. rewrite SaveResultFile_fold.
  unfold WriteString. rewrite !countByte_app.
  change (countByte lineFeed "" + countByte lineFeed resultHeader)%nat with 1%nat.
  induction departmentSummaries as [|s l IH]; csimpl; [done|].
  unfold concatLines in *. csimpl. rewrite countByte_app.
  unfold formatLine at 1. rewrite !countByte_app, fmtInteger_no_lineFeed.
  change (countByte lineFeed ",") with O. change (countByte lineFeed nl) with 1%nat.
  lia.
Qed.

(** * The further properties at concrete inputs *)

Section ConcreteMore.

Local Existing Instance AsciiText.strings.

Import Scenarios.

Example ValidateFile_tests :
  (ValidateFile {| Filename := "test.csv"; Size := 1000; ContentType := "text/csv" |}).1
    = None /\
  (ValidateFile {| Filename := "test.csv"; Size := 11534336; ContentType := "text/csv" |}).1
    = None /\
  (ValidateFile {| Filename := "test.txt"; Size := 1000; ContentType := "text/plain" |}).1
    = Some (OnlyCSVAllowed ".txt") /\
  (ValidateFile {| Filename := "test.csv"; Size := 1000;
                   ContentType := "application/csv" |}).1
    = None.
Proof. repeat split. Qed.

Example GetDownloadURL_tests :
  GetDownloadURL "/tmp/test_uploads/test_file.csv" = "/public/uploads/test_file.csv"%string /\
  GetDownloadURL "test_file.csv" = "/public/uploads/test_file.csv"%string.
Proof. repeat split. Qed.

Example Ext_cases :
  Filepath.Ext "archive.tar.csv" = ".csv"%string /\
  Filepath.Ext ".csv" = ".csv"%string /\
  Filepath.Ext "dir.csv/file" = EmptyString /\
  Filepath.Ext "file." = "."%string /\
  Filepath.Base "a/b/" = "b"%string /\
  Filepath.Base "///" = "/"%string /\
  Filepath.Base "" = "."%string.
Proof. repeat split. Qed.

Lemma group_totals_witness :
  summary "Electronics" 2500 ∈ [summary "Electronics" 2500; summary "Clothing" 700;
                                summary "Books" 300] <->
  "Electronics" ∈ (addedOf standard).*1 /\
  2500 = GoInt.wrap (groupSum "Electronics" (addedOf standard)).
Proof.
  apply (group_totals standard
           [summary "Electronics" 2500; summary "Clothing" 700; summary "Books" 300]).
  eexists. split; [vm_compute; reflexivity|]. apply perm_swap.
Defined.

Lemma summaries_invariants_witness :
  [summary "Electronics" 1000; summary "Books" 300] <> [] /\
  Forall (fun s => Department s <> EmptyString /\ GoInt.inRange (TotalSales s))
    [summary "Electronics" 1000; summary "Books" 300] /\
  (length [summary "Electronics" 1000; summary "Books" 300]
   <= length (addedOf invalidSales))%nat /\
  (length (addedOf invalidSales) <= length invalidSales - 1)%nat.
Proof.
  apply (summaries_invariants invalidSales).
  eexists. split; [vm_compute; reflexivity | reflexivity].
Defined.

Lemma row_order_irrelevant_witness :
  Returns
    [row ["department"; "sales"]; row ["Clothing"; "500"]; row ["Electronics"; "1000"]]
    [summary "Electronics" 1000; summary "Clothing" 500].
Proof.
  apply (row_order_irrelevant ["department"; "sales"]
           [row ["Electronics"; "1000"]; row ["Clothing"; "500"]]).
  - apply perm_swap.
  - eexists. split; [vm_compute; reflexivity|]. apply perm_swap.
Defined.

Lemma skipped_row_irrelevant_witness :
  Returns emptyDepartment [summary "Electronics" 1000; summary "Books" 300] <->
  Returns [row ["department"; "sales"]; row ["Electronics"; "1000"];
           row ["Books"; "300"]]
    [summary "Electronics" 1000; summary "Books" 300].
Proof.
  apply (skipped_row_irrelevant ["department"; "sales"] [row ["Electronics"; "1000"]]
           [row ["Books"; "300"]] [""; "500"] 0 1).
  - reflexivity.
  - reflexivity.
  - eexists. vm_compute. reflexivity.
Defined.


Lemma Atoi_fmtInteger_witness :
  Strconv.Atoi (fmtInteger (-9223372036854775808)) = (-9223372036854775808, None).
Proof.
  apply (Atoi_fmtInteger (-9223372036854775808)).
  unfold GoInt.inRange, GoInt.minInt, GoInt.maxInt. lia.
Defined.

Lemma GetDownloadURL_name_witness :
  GetDownloadURL ("/tmp/test_uploads" +:+ "/" +:+ "test_file.csv")
    = "/public/uploads/" +:+ "test_file.csv" /\
  GetDownloadURL "test_file.csv" = "/public/uploads/" +:+ "test_file.csv" /\
  GetDownloadURL ("/tmp/test_uploads" +:+ "/" +:+ resultFilename "12345678-1234")
    = "/public/uploads/result_" +:+ "12345678-1234" +:+ ".csv".
Proof.
  apply (GetDownloadURL_name "/tmp/test_uploads" "test_file.csv" "12345678-1234").
  - discriminate.
  - repeat constructor.
  - repeat constructor.
Defined.

Lemma stored_names_keep_extension_witness :
  Filepath.Ext (uploadFilename "12345678-1234" "Sales.Report.CSV")
    = Filepath.Ext "Sales.Report.CSV" /\
  (forall size contentType size' contentType',
     (ValidateFile {| Filename := uploadFilename "12345678-1234" "Sales.Report.CSV";
                      Size := size'; ContentType := contentType' |}).1
     = (ValidateFile {| Filename := "Sales.Report.CSV";
                        Size := size; ContentType := contentType |}).1) /\
  Filepath.Ext (resultFilename "12345678-1234") = ".csv"%string.
Proof.
  apply (stored_names_keep_extension "12345678-1234" "Sales.Report.CSV").
  vm_compute. discriminate.
Defined.

Lemma UploadCSV_ok_witness :
  exists file filePath csv summaries resultFilePath,
    formFile Requests.accepted = Some file /\
    (ValidateFile file).1 = None /\
    uploadedPath Requests.accepted = Some filePath /\
    openFile Requests.accepted filePath = Some csv /\
    (ProcessSalesCSV csv).1 = inr summaries /\
    resultPath Requests.accepted = Some resultFilePath /\
    Models.Success Requests.acceptedResponse = true /\
    Models.DownloadURL Requests.acceptedResponse = GetDownloadURL resultFilePath /\
    Models.TotalDepartments Requests.acceptedResponse = len summaries /\
    1 <= Models.TotalDepartments Requests.acceptedResponse /\
    Models.TotalSales Requests.acceptedResponse = GoInt.wrap (sumTotals summaries) /\
    GoInt.wrap (Models.TotalSales Requests.acceptedResponse)
    = GoInt.wrap (sumZ (parsedValues csv)).
Proof.
  apply (UploadCSV_ok Requests.accepted Requests.acceptedResponse).
  vm_compute. reflexivity.
Defined.

Lemma UploadCSV_status_witness :
  (statusOf (ValidationFailed (OnlyCSVAllowed ".txt")) = 400 \/
   statusOf (ValidationFailed (OnlyCSVAllowed ".txt")) = 500) /\
  (statusOf (ValidationFailed (OnlyCSVAllowed ".txt")) = 400 <->
   formFile Requests.textFile = None \/
   exists file, formFile Requests.textFile = Some file /\
     ToLower (Filepath.Ext (Filename file)) <> ".csv"%string).
Proof.
  apply (UploadCSV_status Requests.textFile (ValidationFailed (OnlyCSVAllowed ".txt"))).
  vm_compute. reflexivity.
Defined.

Lemma read_error_iff_witness :
  (ProcessSalesCSV shortRow).1 = inl (FailedToReadRecord 3 Csv.ErrFieldCount) <->
  exists good bad rest,
    [row ["Electronics"; "1000"]; row ["Clothing"]; row ["Books"; "300"]]
    = good ++ bad :: rest /\
    Forall (readable (len ["department"; "sales"])) good /\
    (Csv.checkFields (len ["department"; "sales"]) bad).1.2 = Some Csv.ErrFieldCount /\
    3 = len good + 2.
Proof.
  apply (read_error_iff ["department"; "sales"]
           [row ["Electronics"; "1000"]; row ["Clothing"]; row ["Books"; "300"]]
           0 1 3 Csv.ErrFieldCount).
  reflexivity.
Defined.

Lemma accumulator_grows_witness :
  (forall d, is_Some (someBooks !! d) ->
     is_Some (addSales someBooks "Books" 300 !! d)) /\
  (forall d, d ∉ (added 0 1 (recordsOf [row ["Books"; "300"]; row [""; "1"]])).*1 ->
     addSales someBooks "Books" 300 !! d = someBooks !! d) /\
  (size someBooks <= size (addSales someBooks "Books" 300))%nat.
Proof.
  apply (accumulator_grows [row ["Books"; "300"]; row [""; "1"]] 2 0 1 1
           someBooks (addSales someBooks "Books" 300) atEnd).
  vm_compute. reflexivity.
Defined.

End ConcreteMore.
